(** * Predefined macros and builtin declarations of the vendored TinyCC
      ([src/lib/tcc/vendor/tccdefs_.h]).

    The header is a sequence of C string literals selected by the
    preprocessor conditionals of the compiler's own build.  Each literal is
    one line of the text that the compiler later feeds to its preprocessor
    in front of every translation unit.

    The build-time conditionals become a Rocq function from a build
    configuration to the list of emitted lines; the emitted text is then
    read by a model of the C preprocessor (directives, macro table, macro
    expansion), which gives the macro set and the declarations a
    translation unit sees. *)

From Stdlib Require Import ZArith Ascii String List Bool Lia.
From stdpp Require Import base option list strings gmap.

Local Open Scope string_scope.
Local Open Scope Z_scope.
Local Open Scope list_scope.

(** ** Build configuration

    The names tested by the [#if] lines that start at column 1 of the
    header.  [PTR_SIZE] and [LONG_SIZE] are integer macros, every other
    field is [true] when the macro of that name is defined. *)

Record Config := mkConfig {
  PTR_SIZE : Z;
  LONG_SIZE : Z;
  TARGETOS_OpenBSD : bool;
  TARGETOS_Linux : bool;
  TARGETOS_FreeBSD : bool;
  TARGETOS_FreeBSD_kernel : bool;
  TARGETOS_NetBSD : bool;
  TARGETOS_ANDROID : bool;
  TCC_TARGET_PE : bool;
  TCC_TARGET_MACHO : bool;
  TCC_TARGET_I386 : bool;
  TCC_TARGET_X86_64 : bool;
  TCC_TARGET_ARM : bool;
  TCC_TARGET_ARM64 : bool;
  TCC_TARGET_RISCV64 : bool;
  TCC_ARM_EABI : bool
}.

(** ** C string literals

    The literals of the header are written here with their escape
    sequences: a backslash followed by [n] is a line feed.  An escaped
    double quote is written [dq]. *)

Definition LF : ascii := ascii_of_nat 10.
Definition dq : string := String (ascii_of_nat 34) EmptyString.

Fixpoint c_literal (s : string) : string :=
  match s with
  | EmptyString => EmptyString
  | String a s' =>
      match s' with
      | String b s'' =>
          if (Ascii.eqb a "\" && Ascii.eqb b "n")%bool
          then String LF (c_literal s'')
          else String a (c_literal s')
      | EmptyString => String a EmptyString
      end
  end.

Definition emit (literals : list string) : list string := map c_literal literals.

(** ** The header, section by section

    Every definition below is one run of the header's lines, in source
    order; a build-time [#if]/[#elif]/[#else] is an [if] on the
    configuration. *)

Section Header.
Variable c : Config.

(** Lines 19-46: size, pointer-difference and 64-bit integer types. *)
Definition fundamental_types : list string :=
  emit
    (if PTR_SIZE c =? 4 then
       (* 32bit systems. *)
       (if TARGETOS_OpenBSD c then
          [ "#define __SIZE_TYPE__ unsigned long\n";
            "#define __PTRDIFF_TYPE__ long\n" ]
        else
          [ "#define __SIZE_TYPE__ unsigned int\n";
            "#define __PTRDIFF_TYPE__ int\n" ])
       ++ [ "#define __ILP32__ 1\n";
            "#define __INT64_TYPE__ long long\n" ]
     else if LONG_SIZE c =? 4 then
       (* 64bit Windows. *)
       [ "#define __SIZE_TYPE__ unsigned long long\n";
         "#define __PTRDIFF_TYPE__ long long\n";
         "#define __LLP64__ 1\n";
         "#define __INT64_TYPE__ long long\n" ]
     else
       (* Other 64bit systems. *)
       [ "#define __SIZE_TYPE__ unsigned long\n";
         "#define __PTRDIFF_TYPE__ long\n";
         "#define __LP64__ 1\n" ]
       ++ (if TARGETOS_Linux c then
             [ "#define __INT64_TYPE__ long\n" ]
           else (* APPLE, BSD *)
             [ "#define __INT64_TYPE__ long long\n" ])).

(** Lines 47-59: integer limits and byte order. *)
Definition integer_limits : list string :=
  emit
    ([ "#define __SIZEOF_INT__ 4\n";
       "#define __INT_MAX__ 0x7fffffff\n" ]
     ++ (if LONG_SIZE c =? 4 then
           [ "#define __LONG_MAX__ 0x7fffffffL\n" ]
         else
           [ "#define __LONG_MAX__ 0x7fffffffffffffffL\n" ])
     ++ [ "#define __SIZEOF_LONG_LONG__ 8\n";
          "#define __LONG_LONG_MAX__ 0x7fffffffffffffffLL\n";
          "#define __CHAR_BIT__ 8\n";
          "#define __ORDER_LITTLE_ENDIAN__ 1234\n";
          "#define __ORDER_BIG_ENDIAN__ 4321\n";
          "#define __BYTE_ORDER__ __ORDER_LITTLE_ENDIAN__\n" ]).

(** Lines 60-69: wide character types. *)
Definition wide_char_types : list string :=
  emit
    (if TCC_TARGET_PE c then
       [ "#define __WCHAR_TYPE__ unsigned short\n";
         "#define __WINT_TYPE__ unsigned short\n" ]
     else if TARGETOS_Linux c then
       [ "#define __WCHAR_TYPE__ int\n";
         "#define __WINT_TYPE__ unsigned int\n" ]
     else
       [ "#define __WCHAR_TYPE__ int\n";
         "#define __WINT_TYPE__ int\n" ]).

(** Lines 71-79: the block for strict C11. *)
Definition stdc_c11 : list string :=
  emit
    ([ "#if __STDC_VERSION__==201112L\n";
       "#define __STDC_NO_ATOMICS__ 1\n";
       "#define __STDC_NO_COMPLEX__ 1\n";
       "#define __STDC_NO_THREADS__ 1\n" ]
     ++ (if negb (TCC_TARGET_PE c) then
           [ "#define __STDC_UTF_16__ 1\n";
             "#define __STDC_UTF_32__ 1\n" ]
         else [])
     ++ [ "#endif\n" ]).

(** Lines 81-138: the macros that make the system headers of each
    operating system accept the compiler. *)
Definition os_identity : list string :=
  emit
    (if TCC_TARGET_PE c then
       [ "#define __declspec(x) __attribute__((x))\n";
         "#define __cdecl\n" ]
     else if TARGETOS_FreeBSD c then
       [ "#define __GNUC__ 9\n";
         "#define __GNUC_MINOR__ 3\n";
         "#define __GNUC_PATCHLEVEL__ 0\n";
         "#define __GNUC_STDC_INLINE__ 1\n";
         "#define __NO_TLS 1\n";
         "#define __RUNETYPE_INTERNAL 1\n" ]
       ++ (if PTR_SIZE c =? 8 then
             (* FIXME, __int128_t is used by setjump *)
             [ "#define __int128_t struct{unsigned char _dummy[16]__attribute((aligned(16)));}\n";
               "#define __SIZEOF_SIZE_T__ 8\n";
               "#define __SIZEOF_PTRDIFF_T__ 8\n" ]
           else
             [ "#define __SIZEOF_SIZE_T__ 4\n";
               "#define __SIZEOF_PTRDIFF_T__ 4\n" ])
     else if TARGETOS_FreeBSD_kernel c then
       []
     else if TARGETOS_NetBSD c then
       [ "#define __GNUC__ 4\n";
         "#define __GNUC_MINOR__ 1\n";
         "#define __GNUC_PATCHLEVEL__ 0\n";
         "#define _Pragma(x)\n";
         "#define __ELF__ 1\n" ]
       ++ (if TCC_TARGET_ARM64 c then
             [ "#define _LOCORE\n" ] (* avoids usage of __asm *)
           else [])
     else if TARGETOS_OpenBSD c then
       [ "#define __GNUC__ 4\n";
         "#define _ANSI_LIBRARY 1\n" ]
     else if TCC_TARGET_MACHO c then
       (* emulate APPLE-GCC to make libc's headerfiles compile: *)
       [ "#define __GNUC__ 4\n";   (* darwin emits warning on GCC<4 *)
         "#define __APPLE_CC__ 1\n"; (* for <TargetConditionals.h> *)
         "#define __LITTLE_ENDIAN__ 1\n";
         "#define _DONT_USE_CTYPE_INLINE_ 1\n";
         (* avoids usage of GCC/clang specific builtins in libc-headerfiles: *)
         "#define __FINITE_MATH_ONLY__ 1\n";
         "#define _FORTIFY_SOURCE 0\n" ]
     else if TARGETOS_ANDROID c then
       [ "#define BIONIC_IOCTL_NO_SIGNEDNESS_OVERLOAD\n";
         "#define __PRETTY_FUNCTION__ __FUNCTION__\n";
         "#define __has_builtin(x) 0\n";
         "#define _Nonnull\n";
         "#define _Nullable\n" ]
     else
       (* Linux *)
       []).

(** Lines 139-144: derived integer types. *)
Definition derived_int_types : list string :=
  emit
    ((if negb (TARGETOS_NetBSD c) then
        [ "#define __UINTPTR_TYPE__ unsigned __PTRDIFF_TYPE__\n";
          "#define __INTPTR_TYPE__ __PTRDIFF_TYPE__\n" ]
      else [])
     ++ [ "#define __INT32_TYPE__ int\n" ]).

(** Lines 146-150: glibc defines. *)
Definition glibc_redirect : list string :=
  emit
    (if negb (TCC_TARGET_PE c) then
       [ "#define __REDIRECT(name,proto,alias) name proto __asm__(#alias)\n";
         "#define __REDIRECT_NTH(name,proto,alias) name proto __asm__(#alias)__THROW\n" ]
     else []).

(** Line 153: everything below is skipped with -E. *)
Definition open_not_pp : list string :=
  emit [ "#ifndef __TCC_PP__\n" ].

(** Lines 155-171: builtins written as macros. *)
Definition builtin_macros : list string :=
  emit
    ([ "#define __builtin_offsetof(type,field) ((__SIZE_TYPE__)&((type*)0)->field)\n";
       "#define __builtin_extract_return_addr(x) x\n" ]
     ++ (if negb (TARGETOS_Linux c) && negb (TCC_TARGET_PE c) then
           (* used by math.h *)
           [ "#define __builtin_huge_val() 1e500\n";
             "#define __builtin_huge_valf() 1e50f\n";
             "#define __builtin_huge_vall() 1e5000L\n" ]
           ++ (if TCC_TARGET_MACHO c then
                 [ "#define __builtin_nanf(ignored_string) (0.0F/0.0F)\n";
                   (* used by floats.h to implement FLT_ROUNDS C99 macro. 1 == to nearest *)
                   "#define __builtin_flt_rounds() 1\n";
                   (* used by _fd_def.h *)
                   "#define __builtin_bzero(p,ignored_size) bzero(p,sizeof(*(p)))\n" ]
               else
                 [ "#define __builtin_nanf(ignored_string) (0.0F/0.0F)\n" ])
         else [])).

(** Lines 173-228: [__builtin_va_list] and its access macros, one branch
    per architecture. *)
Definition va_list_abi : list string :=
  emit
    (if TCC_TARGET_X86_64 c then
       (if negb (TCC_TARGET_PE c) then
          (* GCC compatible definition of va_list. *)
          (* This should be in sync with the declaration in our lib/libtcc1.c *)
          [ "typedef struct{\n";
            "unsigned gp_offset,fp_offset;\n";
            "union{\n";
            "unsigned overflow_offset;\n";
            "char*overflow_arg_area;\n";
            "};\n";
            "char*reg_save_area;\n";
            "}__builtin_va_list[1];\n";
            "void*__va_arg(__builtin_va_list ap,int arg_type,int size,int align);\n";
            "#define __builtin_va_start(ap,last) (*(ap)=*(__builtin_va_list)((char*)__builtin_frame_address(0)-24))\n";
            "#define __builtin_va_arg(ap,t) (*(t*)(__va_arg(ap,__builtin_va_arg_types(t),sizeof(t),__alignof__(t))))\n";
            "#define __builtin_va_copy(dest,src) (*(dest)=*(src))\n" ]
        else (* _WIN64 *)
          [ "typedef char*__builtin_va_list;\n";
            "#define __builtin_va_arg(ap,t) ((sizeof(t)>8||(sizeof(t)&(sizeof(t)-1)))?**(t**)((ap+=8)-8):*(t*)((ap+=8)-8))\n" ])
     else if TCC_TARGET_ARM c then
       [ "typedef char*__builtin_va_list;\n";
         "#define _tcc_alignof(type) ((int)&((struct{char c;type x;}*)0)->x)\n";
         "#define _tcc_align(addr,type) (((unsigned)addr+_tcc_alignof(type)-1)&~(_tcc_alignof(type)-1))\n";
         "#define __builtin_va_start(ap,last) (ap=((char*)&(last))+((sizeof(last)+3)&~3))\n";
         "#define __builtin_va_arg(ap,type) (ap=(void*)((_tcc_align(ap,type)+sizeof(type)+3)&~3),*(type*)(ap-((sizeof(type)+3)&~3)))\n" ]
     else if TCC_TARGET_ARM64 c then
       (if TCC_TARGET_MACHO c then
          [ "typedef struct{\n";
            "void*__stack;\n";
            "}__builtin_va_list;\n" ]
        else
          [ "typedef struct{\n";
            "void*__stack,*__gr_top,*__vr_top;\n";
            "int __gr_offs,__vr_offs;\n";
            "}__builtin_va_list;\n" ])
     else if TCC_TARGET_RISCV64 c then
       [ "typedef char*__builtin_va_list;\n";
         "#define __va_reg_size (__riscv_xlen>>3)\n";
         "#define _tcc_align(addr,type) (((unsigned long)addr+__alignof__(type)-1)&-(__alignof__(type)))\n";
         "#define __builtin_va_arg(ap,type) (*(sizeof(type)>(2*__va_reg_size)?*(type**)((ap+=__va_reg_size)-__va_reg_size):(ap=(va_list)(_tcc_align(ap,type)+(sizeof(type)+__va_reg_size-1)&-__va_reg_size),(type*)(ap-((sizeof(type)+__va_reg_size-1)&-__va_reg_size)))))\n" ]
     else (* TCC_TARGET_I386 *)
       [ "typedef char*__builtin_va_list;\n";
         "#define __builtin_va_start(ap,last) (ap=((char*)&(last))+((sizeof(last)+3)&~3))\n";
         "#define __builtin_va_arg(ap,t) (*(t*)((ap+=(sizeof(t)+3)&~3)-((sizeof(t)+3)&~3)))\n" ]).

(** Lines 229-232: the access macros shared by all architectures. *)
Definition va_common : list string :=
  emit
    [ "#define __builtin_va_end(ap) (void)(ap)\n";
      "#ifndef __builtin_va_copy\n";
      "#define __builtin_va_copy(dest,src) (dest)=(src)\n";
      "#endif\n" ].

(** Lines 234-247: TCC BBUILTIN AND BOUNDS ALIASES, the helper macros
    that do not depend on the build. *)
Definition alias_helpers : list string :=
  emit
    [ "#ifdef __leading_underscore\n";
      "#define __RENAME(X) __asm__(" +:+ dq +:+ "_" +:+ dq +:+ "X)\n";
      "#else\n";
      "#define __RENAME(X) __asm__(X)\n";
      "#endif\n";
      "#ifdef __BOUNDS_CHECKING_ON\n";
      "#define __BUILTINBC(ret,name,params) ret __builtin_##name params __RENAME(" +:+ dq +:+ "__bound_" +:+ dq +:+ "#name);\n";
      "#define __BOUND(ret,name,params) ret name params __RENAME(" +:+ dq +:+ "__bound_" +:+ dq +:+ "#name);\n";
      "#else\n";
      "#define __BUILTINBC(ret,name,params) ret __builtin_##name params __RENAME(#name);\n";
      "#define __BOUND(ret,name,params)\n";
      "#endif\n" ].

(** Lines 248-254: [__BOTH] and [__BUILTIN]. *)
Definition alias_both : list string :=
  emit
    (if TCC_TARGET_PE c then
       [ "#define __BOTH __BOUND\n";
         "#define __BUILTIN(ret,name,params)\n" ]
     else
       [ "#define __BOTH(ret,name,params) __BUILTINBC(ret,name,params)__BOUND(ret,name,params)\n";
         "#define __BUILTIN(ret,name,params) ret __builtin_##name params __RENAME(#name);\n" ]).

(** Lines 256-276: memory and string functions. *)
Definition string_builtins : list string :=
  emit
    ([ "__BOTH(void*,memcpy,(void*,const void*,__SIZE_TYPE__))\n";
       "__BOTH(void*,memmove,(void*,const void*,__SIZE_TYPE__))\n";
       "__BOTH(void*,memset,(void*,int,__SIZE_TYPE__))\n";
       "__BOTH(int,memcmp,(const void*,const void*,__SIZE_TYPE__))\n";
       "__BOTH(__SIZE_TYPE__,strlen,(const char*))\n";
       "__BOTH(char*,strcpy,(char*,const char*))\n";
       "__BOTH(char*,strncpy,(char*,const char*,__SIZE_TYPE__))\n";
       "__BOTH(int,strcmp,(const char*,const char*))\n";
       "__BOTH(int,strncmp,(const char*,const char*,__SIZE_TYPE__))\n";
       "__BOTH(char*,strcat,(char*,const char*))\n";
       "__BOTH(char*,strncat,(char*,const char*,__SIZE_TYPE__))\n";
       "__BOTH(char*,strchr,(const char*,int))\n";
       "__BOTH(char*,strrchr,(const char*,int))\n";
       "__BOTH(char*,strdup,(const char*))\n" ]
     ++ (if TCC_ARM_EABI c then
           [ "__BOUND(void*,__aeabi_memcpy,(void*,const void*,__SIZE_TYPE__))\n";
             "__BOUND(void*,__aeabi_memmove,(void*,const void*,__SIZE_TYPE__))\n";
             "__BOUND(void*,__aeabi_memmove4,(void*,const void*,__SIZE_TYPE__))\n";
             "__BOUND(void*,__aeabi_memmove8,(void*,const void*,__SIZE_TYPE__))\n";
             "__BOUND(void*,__aeabi_memset,(void*,int,__SIZE_TYPE__))\n" ]
         else [])).

(** Lines 278-282: HAVE MALLOC_REDIR. *)
Definition maybe_redir : list string :=
  emit
    (if TARGETOS_Linux c || TCC_TARGET_MACHO c then
       [ "#define __MAYBE_REDIR __BUILTIN\n" ]
     else
       [ "#define __MAYBE_REDIR __BOTH\n" ]).

(** Lines 283-287: the allocator. *)
Definition alloc_builtins : list string :=
  emit
    [ "__MAYBE_REDIR(void*,malloc,(__SIZE_TYPE__))\n";
      "__MAYBE_REDIR(void*,realloc,(void*,__SIZE_TYPE__))\n";
      "__MAYBE_REDIR(void*,calloc,(__SIZE_TYPE__,__SIZE_TYPE__))\n";
      "__MAYBE_REDIR(void*,memalign,(__SIZE_TYPE__,__SIZE_TYPE__))\n";
      "__MAYBE_REDIR(void,free,(void*))\n" ].

(** Lines 288-298: [alloca], [abort], [longjmp], [mmap], [munmap]. *)
Definition misc_builtins : list string :=
  emit
    ((if TCC_TARGET_I386 c || TCC_TARGET_X86_64 c then
        [ "__BOTH(void*,alloca,(__SIZE_TYPE__))\n" ]
      else
        [ "__BUILTIN(void*,alloca,(__SIZE_TYPE__))\n" ])
     ++ [ "__BUILTIN(void,abort,(void))\n";
          "__BOUND(void,longjmp,())\n" ]
     ++ (if negb (TCC_TARGET_PE c) then
           [ "__BOUND(void*,mmap,())\n";
             "__BOUND(int,munmap,())\n" ]
         else [])).

(** Lines 299-304: the helper macros are removed again. *)
Definition undef_helpers : list string :=
  emit
    [ "#undef __BUILTINBC\n";
      "#undef __BUILTIN\n";
      "#undef __BOUND\n";
      "#undef __BOTH\n";
      "#undef __MAYBE_REDIR\n";
      "#undef __RENAME\n" ].

(** Line 306: end of [#ifndef __TCC_PP__]. *)
Definition close_not_pp : list string :=
  emit [ "#endif\n" ].

(** The builtin declaration table, lines 256-298. *)
Definition builtin_table : list string :=
  string_builtins ++ maybe_redir ++ alloc_builtins ++ misc_builtins.

(** The block of builtin aliases, lines 234-304. *)
Definition builtin_block : list string :=
  alias_helpers ++ alias_both ++ builtin_table ++ undef_helpers.

(** Everything in front of that block, lines 19-232. *)
Definition predefs_head : list string :=
  fundamental_types ++ integer_limits ++ wide_char_types ++ stdc_c11
  ++ os_identity ++ derived_int_types ++ glibc_redirect
  ++ open_not_pp ++ builtin_macros ++ va_list_abi ++ va_common.

(** The whole header: the lines of the predefined text, in order. *)
Definition tccdefs : list string :=
  predefs_head ++ builtin_block ++ close_not_pp.

End Header.

(** ** Preprocessing tokens *)

Inductive token :=
| TId (s : string)     (* identifier *)
| TNum (s : string)    (* preprocessing number *)
| TStr (s : string)    (* string literal, without its quotes *)
| TPunct (s : string). (* punctuator *)

Global Instance token_eq_dec : EqDecision token.
Proof. solve_decision. Defined.

Definition is_space (a : ascii) : bool :=
  let n := N_of_ascii a in
  ((n =? 32) || (n =? 9) || (n =? 10) || (n =? 13))%N.

Definition is_digit (a : ascii) : bool :=
  let n := N_of_ascii a in ((48 <=? n) && (n <=? 57))%N.

Definition is_ident_start (a : ascii) : bool :=
  let n := N_of_ascii a in
  (((65 <=? n) && (n <=? 90)) || ((97 <=? n) && (n <=? 122)) || (n =? 95))%N.

Definition is_ident_char (a : ascii) : bool := is_ident_start a || is_digit a.

Definition is_exponent (a : ascii) : bool :=
  (Ascii.eqb a "e" || Ascii.eqb a "E" || Ascii.eqb a "p" || Ascii.eqb a "P")%bool.

Definition is_sign (a : ascii) : bool := (Ascii.eqb a "+" || Ascii.eqb a "-")%bool.

(** The punctuators of two characters. *)
Definition punct2 : list string :=
  [ "##"; "=="; "!="; "<="; ">="; "&&"; "||"; "++"; "--"; "->"; "<<"; ">>";
    "+="; "-="; "*="; "/="; "%="; "&="; "|="; "^=" ].

Definition is_punct2 (a b : ascii) : bool :=
  existsb (String.eqb (String a (String b EmptyString))) punct2.

Definition snoc (s : string) (a : ascii) : string := s +:+ String a EmptyString.

(** What the lexer is in the middle of: nothing, or an identifier, a
    number or a string literal read so far ([sp] tells whether white space
    came before it, [last] is the previous character of a number). *)
Inductive lex_cur :=
| CNone
| CId (sp : bool) (acc : string)
| CNum (sp : bool) (acc : string) (last : ascii)
| CStr (sp : bool) (acc : string).

(** A token and whether white space came before it. *)
Definition lex_tok : Type := bool * token.

Fixpoint lex_go (cur : lex_cur) (sp : bool) (s : string) : list lex_tok :=
  match s with
  | EmptyString =>
      match cur with
      | CNone => []
      | CId b acc => [(b, TId acc)]
      | CNum b acc _ => [(b, TNum acc)]
      | CStr b acc => [(b, TStr acc)]
      end
  | String a s' =>
      let start (_ : unit) :=
        if is_space a then lex_go CNone true s'
        else if Ascii.eqb a (ascii_of_nat 34) then lex_go (CStr sp EmptyString) false s'
        else if is_digit a then lex_go (CNum sp (String a EmptyString) a) false s'
        else if is_ident_start a then lex_go (CId sp (String a EmptyString)) false s'
        else
          match s' with
          | String b s'' =>
              if is_punct2 a b
              then (sp, TPunct (String a (String b EmptyString))) :: lex_go CNone false s''
              else (sp, TPunct (String a EmptyString)) :: lex_go CNone false s'
          | EmptyString => [(sp, TPunct (String a EmptyString))]
          end in
      match cur with
      | CNone => start tt
      | CId b acc =>
          if is_ident_char a then lex_go (CId b (snoc acc a)) false s'
          else (b, TId acc) :: start tt
      | CNum b acc last =>
          if (is_ident_char a || Ascii.eqb a "." || (is_sign a && is_exponent last))%bool
          then lex_go (CNum b (snoc acc a) a) false s'
          else (b, TNum acc) :: start tt
      | CStr b acc =>
          if Ascii.eqb a (ascii_of_nat 34) then (b, TStr acc) :: lex_go CNone false s'
          else lex_go (CStr b (snoc acc a)) false s'
      end
  end.

Definition lex (s : string) : list lex_tok := lex_go CNone false s.

Definition tokens (s : string) : list token := map snd (lex s).

(** ** Lines of the predefined text *)

Record macro := mkMacro {
  m_params : option (list string);  (* [None]: object-like *)
  m_body : list token
}.

Global Instance macro_eq_dec : EqDecision macro.
Proof. solve_decision. Defined.

Inductive line :=
| LDefine (name : string) (m : macro)
| LUndef (name : string)
| LIf (cond : list token)
| LIfdef (name : string)
| LIfndef (name : string)
| LElse
| LEndif
| LText (ts : list token)
| LBad.

Fixpoint parse_param_list (ts : list lex_tok) : option (list string * list lex_tok) :=
  match ts with
  | (_, TId p) :: (_, TPunct sep) :: rest =>
      if String.eqb sep ")" then Some ([p], rest)
      else if String.eqb sep "," then
        match parse_param_list rest with
        | Some (ps, body) => Some (p :: ps, body)
        | None => None
        end
      else None
  | _ => None
  end.

Definition parse_params (ts : list lex_tok) : option (list string * list lex_tok) :=
  match ts with
  | (_, TPunct ")") :: rest => Some ([], rest)
  | _ => parse_param_list ts
  end.

(** [#define]: the macro is function-like when the opening parenthesis
    follows its name without white space. *)
Definition parse_define (ts : list lex_tok) : line :=
  match ts with
  | (_, TId name) :: (false, TPunct "(") :: rest =>
      match parse_params rest with
      | Some (ps, body) => LDefine name (mkMacro (Some ps) (map snd body))
      | None => LBad
      end
  | (_, TId name) :: body => LDefine name (mkMacro None (map snd body))
  | _ => LBad
  end.

Definition parse_directive (d : string) (rest : list lex_tok) : line :=
  if String.eqb d "define" then parse_define rest
  else if String.eqb d "undef" then
    match rest with [(_, TId name)] => LUndef name | _ => LBad end
  else if String.eqb d "ifdef" then
    match rest with [(_, TId name)] => LIfdef name | _ => LBad end
  else if String.eqb d "ifndef" then
    match rest with [(_, TId name)] => LIfndef name | _ => LBad end
  else if String.eqb d "if" then LIf (map snd rest)
  else if String.eqb d "else" then
    match rest with [] => LElse | _ => LBad end
  else if String.eqb d "endif" then
    match rest with [] => LEndif | _ => LBad end
  else LBad.

Definition parse_line (l : string) : line :=
  match lex l with
  | (_, TPunct "#") :: (_, TId d) :: rest => parse_directive d rest
  | ts => LText (map snd ts)
  end.

(** ** Macro expansion

    Modelled from the spec: the preprocessing stage that consumes the
    emitted text (section 6) is not among the sources; it is modelled
    here as the C preprocessor restricted to what the header uses:
    object-like and function-like macros, the [#] and [##] operators,
    rescanning with the names under expansion disabled, and the
    directives [#define], [#undef], [#if], [#ifdef], [#ifndef], [#else],
    [#endif].

    Expansion asks the macro table for one name at a time.  It is written
    over a small query monad, so that the names a given expansion depends
    on can be read off. *)

Inductive Q (A : Type) : Type :=
| QRet (a : A)
| QAsk (name : string) (k : option macro -> Q A).
Arguments QRet {A} a.
Arguments QAsk {A} name k.

Fixpoint qbind {A B} (m : Q A) (f : A -> Q B) : Q B :=
  match m with
  | QRet a => f a
  | QAsk n k => QAsk n (fun om => qbind (k om) f)
  end.

Definition qmap {A B} (f : A -> B) (m : Q A) : Q B :=
  qbind m (fun a => QRet (f a)).

(** Run a query against a macro table. *)
Fixpoint qrun {A} (E : gmap string macro) (m : Q A) : A :=
  match m with
  | QRet a => a
  | QAsk n k => qrun E (k (E !! n))
  end.

(** The names that the run looks up. *)
Fixpoint qasked {A} (E : gmap string macro) (m : Q A) : list string :=
  match m with
  | QRet _ => []
  | QAsk n k => n :: qasked E (k (E !! n))
  end.

(** A token under expansion, with the macro names disabled for it. *)
Definition htok : Type := token * list string.

Definition hidden (x : string) (hs : list string) : bool :=
  existsb (String.eqb x) hs.

Definition hs_inter (a b : list string) : list string :=
  List.filter (fun x => hidden x b) a.

Definition hs_add (hs : list string) (ts : list htok) : list htok :=
  map (fun t => (fst t, hs ++ snd t)) ts.

Definition lift_tokens (ts : list token) : list htok :=
  map (fun t => (t, [])) ts.

Definition is_punct (p : string) (t : token) : bool :=
  match t with TPunct q => String.eqb p q | _ => false end.

(** The arguments of a function-like macro call, read after its opening
    parenthesis: split at the commas outside nested parentheses, up to the
    matching closing parenthesis.  Returns the arguments, the names
    disabled for the closing parenthesis and the tokens after it. *)
Fixpoint parse_args (depth : nat) (cur : list htok) (acc : list (list htok))
    (ts : list htok) : option (list (list htok) * list string * list htok) :=
  match ts with
  | [] => None
  | t :: rest =>
      if is_punct "(" (fst t) then parse_args (S depth) (cur ++ [t]) acc rest
      else if is_punct ")" (fst t) then
        match depth with
        | O => Some (acc ++ [cur], snd t, rest)
        | S d => parse_args d (cur ++ [t]) acc rest
        end
      else if is_punct "," (fst t) then
        match depth with
        | O => parse_args O [] (acc ++ [cur]) rest
        | S _ => parse_args depth (cur ++ [t]) acc rest
        end
      else parse_args depth (cur ++ [t]) acc rest
  end.

Fixpoint param_index (p : string) (ps : list string) : option nat :=
  match ps with
  | [] => None
  | q :: ps' => if String.eqb p q then Some O
                else option_map S (param_index p ps')
  end.

(** [#]: the spelling of an argument of one token. *)
Definition stringify (arg : list htok) : option token :=
  match arg with
  | [(TId s, _)] => Some (TStr s)
  | [(TNum s, _)] => Some (TStr s)
  | _ => None
  end.

(** [##]: the last token of [out] and the first of [ts] become one. *)
Definition glue (t u : htok) : option htok :=
  match fst t, fst u with
  | TId a, TId b => Some (TId (a +:+ b), hs_inter (snd t) (snd u))
  | TId a, TNum b => Some (TId (a +:+ b), hs_inter (snd t) (snd u))
  | TNum a, TNum b => Some (TNum (a +:+ b), hs_inter (snd t) (snd u))
  | TNum a, TId b => Some (TNum (a +:+ b), hs_inter (snd t) (snd u))
  | _, _ => None
  end.

Definition paste_onto (out ts : list htok) : option (list htok) :=
  match ts with
  | [] => Some out
  | u :: ts' =>
      match last out with
      | Some t =>
          match glue t u with
          | Some g => Some (removelast out ++ g :: ts')
          | None => None
          end
      | None => Some ts
      end
  end.

(** Substitution of the arguments into the body of a macro: [raw] are
    the arguments as written, [expd] the same after their own macro
    expansion; the operands of [#] and [##] take the arguments as
    written. *)
Fixpoint subst (ps : list string) (raw expd : list (list htok))
    (body : list token) (paste : bool) (out : list htok)
    : option (list htok) :=
  match body with
  | [] => if paste then None else Some out
  | t :: rest =>
      let arg_of (from : list (list htok)) (u : token) : option (list htok) :=
        match u with
        | TId p => match param_index p ps with
                   | Some i => from !! i
                   | None => None
                   end
        | _ => None
        end in
      if is_punct "##" t then subst ps raw expd rest true out
      else if is_punct "#" t then
        match rest with
        | u :: rest' =>
            match arg_of raw u with
            | Some a =>
                match stringify a with
                | Some s =>
                    if paste then None
                    else subst ps raw expd rest' false (out ++ [(s, [])])
                | None => None
                end
            | None => None
            end
        | [] => None
        end
      else
        let next_paste :=
          match rest with u :: _ => is_punct "##" u | [] => false end in
        let ts :=
          match arg_of (if (paste || next_paste)%bool then raw else expd) t with
          | Some a => a
          | None => [(t, [])]
          end in
        if paste then
          match paste_onto out ts with
          | Some out' => subst ps raw expd rest false out'
          | None => None
          end
        else subst ps raw expd rest false (out ++ ts)
  end.

(** Expansion of a token sequence.  A macro name is replaced when it is
    not disabled; the replacement is scanned again together with the
    tokens that follow it.  [fuel] bounds the number of steps; [None] is
    an expansion that ran out of it or met a malformed call. *)
Fixpoint expand (fuel : nat) (ts : list htok) : Q (option (list htok)) :=
  match fuel with
  | O => QRet None
  | S f =>
      match ts with
      | [] => QRet (Some [])
      | t :: rest =>
          let keep (_ : unit) := qmap (option_map (cons t)) (expand f rest) in
          match fst t with
          | TId x =>
              if hidden x (snd t) then keep tt
              else
                QAsk x (fun om =>
                  match om with
                  | None => keep tt
                  | Some m =>
                      match m_params m with
                      | None =>
                          expand f (hs_add (x :: snd t) (lift_tokens (m_body m)) ++ rest)
                      | Some ps =>
                          match rest with
                          | lp :: rest' =>
                              if is_punct "(" (fst lp) then
                                match parse_args O [] [] rest' with
                                | None => QRet None
                                | Some (args, hcl, rest'') =>
                                    let args :=
                                      match ps, args with
                                      | [], [[]] => []
                                      | _, _ => args
                                      end in
                                    if (length args =? length ps)%nat then
                                      qbind
                                        ((fix expand_args (l : list (list htok))
                                            : Q (option (list (list htok))) :=
                                            match l with
                                            | [] => QRet (Some [])
                                            | a :: l' =>
                                                qbind (expand f a) (fun oa =>
                                                  match oa with
                                                  | None => QRet None
                                                  | Some ea =>
                                                      qmap (option_map (cons ea)) (expand_args l')
                                                  end)
                                            end) args)
                                        (fun oe =>
                                           match oe with
                                           | None => QRet None
                                           | Some expd =>
                                               match subst ps args expd (m_body m) false [] with
                                               | None => QRet None
                                               | Some body =>
                                                   expand f
                                                     (hs_add (x :: hs_inter (snd t) hcl) body ++ rest'')
                                               end
                                           end)
                                    else QRet None
                                end
                              else keep tt
                          | [] => keep tt
                          end
                      end
                  end)
          | _ => keep tt
          end
      end
  end.

Definition pp_fuel : nat := 400.

(** Adjacent string literals are one literal (translation phase 6). *)
Fixpoint concat_strings (ts : list token) : list token :=
  match ts with
  | [] => []
  | t :: rest =>
      match t, concat_strings rest with
      | TStr a, TStr b :: rest' => TStr (a +:+ b) :: rest'
      | _, r => t :: r
      end
  end.

Definition expand_tokens (E : gmap string macro) (ts : list token)
    : option (list token) :=
  option_map (fun r => concat_strings (map fst r))
    (qrun E (expand pp_fuel (lift_tokens ts))).

(** The names whose definition decides the expansion of [ts] under [E]. *)
Definition expand_asked (E : gmap string macro) (ts : list token) : list string :=
  qasked E (expand pp_fuel (lift_tokens ts)).

(** The value of a decimal constant, with its suffix dropped. *)
Fixpoint decimal_value (s : string) (acc : Z) : option Z :=
  match s with
  | EmptyString => Some acc
  | String a s' =>
      if is_digit a then
        decimal_value s' (10 * acc + Z.of_N (N_of_ascii a) - 48)
      else if forallb (fun x => (Ascii.eqb x "L" || Ascii.eqb x "l"
                                 || Ascii.eqb x "U" || Ascii.eqb x "u")%bool)
                (list_ascii_of_string s)
      then Some acc else None
  end.

(** The operand of a controlling expression: a decimal constant, or an
    identifier that is left after expansion and counts as 0. *)
Definition if_operand (t : token) : option Z :=
  match t with
  | TNum s => decimal_value s 0
  | TId _ => Some 0
  | _ => None
  end.

(** The controlling expressions of the header have the form [a==b]. *)
Definition eval_if (E : gmap string macro) (cond : list token) : option bool :=
  match qrun E (expand pp_fuel (lift_tokens cond)) with
  | Some [(a, _); (TPunct "==", _); (b, _)] =>
      match if_operand a, if_operand b with
      | Some x, Some y => Some (x =? y)
      | _, _ => None
      end
  | _ => None
  end.

(** ** The preprocessor as a state machine over lines *)

(** One open conditional: whether the enclosing text was active, whether
    the condition held, and whether [#else] has been passed. *)
Record frame := mkFrame {
  fr_parent : bool;
  fr_cond : bool;
  fr_else : bool
}.

Record pp_state := mkPP {
  pp_macros : gmap string macro;  (* the macro table *)
  pp_conds : list frame;          (* the open conditionals, innermost first *)
  pp_out : list token;            (* the tokens passed on to the compiler *)
  pp_err : bool                   (* a line was malformed *)
}.

Definition frame_active (f : frame) : bool :=
  fr_parent f && xorb (fr_cond f) (fr_else f).

Definition active (s : pp_state) : bool :=
  match pp_conds s with
  | [] => true
  | f :: _ => frame_active f
  end.

Definition set_macros (E : gmap string macro) (s : pp_state) : pp_state :=
  mkPP E (pp_conds s) (pp_out s) (pp_err s).

Definition set_conds (fs : list frame) (s : pp_state) : pp_state :=
  mkPP (pp_macros s) fs (pp_out s) (pp_err s).

Definition add_out (ts : list token) (s : pp_state) : pp_state :=
  mkPP (pp_macros s) (pp_conds s) (pp_out s ++ ts) (pp_err s).

Definition set_err (s : pp_state) : pp_state :=
  mkPP (pp_macros s) (pp_conds s) (pp_out s) true.

Definition push_cond (b : bool) (s : pp_state) : pp_state :=
  set_conds (mkFrame (active s) (active s && b) false :: pp_conds s) s.

Definition is_defined (name : string) (s : pp_state) : bool :=
  bool_decide (is_Some (pp_macros s !! name)).

Definition exec (l : line) (s : pp_state) : pp_state :=
  match l with
  | LIfdef n => push_cond (is_defined n s) s
  | LIfndef n => push_cond (negb (is_defined n s)) s
  | LIf e =>
      if active s then
        match eval_if (pp_macros s) e with
        | Some b => push_cond b s
        | None => set_err (push_cond false s)
        end
      else push_cond false s
  | LElse =>
      match pp_conds s with
      | f :: fs =>
          if fr_else f then set_err s
          else set_conds (mkFrame (fr_parent f) (fr_cond f) true :: fs) s
      | [] => set_err s
      end
  | LEndif =>
      match pp_conds s with
      | _ :: fs => set_conds fs s
      | [] => set_err s
      end
  | LDefine n m =>
      if active s then set_macros (<[n := m]> (pp_macros s)) s else s
  | LUndef n =>
      if active s then set_macros (delete n (pp_macros s)) s else s
  | LText ts =>
      if active s then
        match expand_tokens (pp_macros s) ts with
        | Some r => add_out r s
        | None => set_err s
        end
      else s
  | LBad => if active s then set_err s else s
  end.

Definition step (s : pp_state) (l : string) : pp_state := exec (parse_line l) s.

Definition run (ls : list string) (s : pp_state) : pp_state := fold_left step ls s.

(** ** What is defined before the header is read

    Modelled from the spec: the option settings that the driver defines
    in front of this text (section 6: language standard, preprocessing
    only, bounds checking; and the leading-underscore setting that the
    text itself tests).  The driver is not among the sources. *)

Inductive c_std := STD_C99 | STD_C11.

Record Options := mkOptions {
  language_std : c_std;
  preprocess_only : bool;
  bounds_checking : bool;
  leading_underscore : bool
}.

Definition one : macro := mkMacro None [TNum "1"].

Definition stdc_version (o : Options) : macro :=
  mkMacro None
    [TNum match language_std o with STD_C99 => "199901L" | STD_C11 => "201112L" end].

Definition define_if (b : bool) (name : string) (E : gmap string macro)
    : gmap string macro :=
  if b then <[name := one]> E else E.

Definition option_macros (o : Options) : gmap string macro :=
  define_if (bounds_checking o) "__BOUNDS_CHECKING_ON"
    (define_if (leading_underscore o) "__leading_underscore"
      (define_if (preprocess_only o) "__TCC_PP__"
        (<["__STDC_VERSION__" := stdc_version o]> ∅))).

Definition initial (o : Options) : pp_state := mkPP (option_macros o) [] [] false.

(** The state of the preprocessor after the predefined text. *)
Definition preprocess (c : Config) (o : Options) : pp_state :=
  run (tccdefs c) (initial o).

(** The macro set a translation unit starts with. *)
Definition predefined_macros (c : Config) (o : Options) : gmap string macro :=
  pp_macros (preprocess c o).

(** The declarations a translation unit starts with. *)
Definition predefined_decls (c : Config) (o : Options) : list token :=
  pp_out (preprocess c o).

(** ** Static views of a run of lines *)

Definition mem (x : string) (l : list string) : bool := existsb (String.eqb x) l.

Definition subset (l N : list string) : bool := forallb (fun x => mem x N) l.

Definition disjoint (l N : list string) : bool := forallb (fun x => negb (mem x N)) l.

(** The name a line defines or undefines. *)
Definition touched_name (l : line) : option string :=
  match l with
  | LDefine n _ => Some n
  | LUndef n => Some n
  | _ => None
  end.

Definition touched (ls : list string) : list string :=
  omap (fun l => touched_name (parse_line l)) ls.

(** The shape of the open conditionals is the list of their "[#else]
    seen" marks; it does not depend on the macro table. *)
Definition shape_step (l : line) (st : list bool) : option (list bool) :=
  match l with
  | LIf _ | LIfdef _ | LIfndef _ => Some (false :: st)
  | LElse => match st with
             | false :: st' => Some (true :: st')
             | _ => None
             end
  | LEndif => match st with
              | _ :: st' => Some st'
              | [] => None
              end
  | _ => Some st
  end.

Fixpoint cond_shape (ls : list string) (st : list bool) : option (list bool) :=
  match ls with
  | [] => Some st
  | l :: ls' =>
      match shape_step (parse_line l) st with
      | Some st' => cond_shape ls' st'
      | None => None
      end
  end.

(** Every conditional opened in [ls] is closed in [ls]. *)
Definition balanced (ls : list string) : bool :=
  bool_decide (cond_shape ls [] = Some []).

(** ** Two states that agree on a set of names

    [agree N s s']: the same open conditionals, and the same definition
    for every name of [N].  [s] is the state of the preprocessor on the
    whole text, [s'] the state on the lines that matter for [N]. *)

Definition agree (N : list string) (s s' : pp_state) : Prop :=
  pp_conds s = pp_conds s' /\
  forall n, n ∈ N -> pp_macros s !! n = pp_macros s' !! n.

(** The condition under which a line does the same in both states:
    what it asks of the macro table is within [N].  With [out] the
    tokens that the line passes on are compared as well. *)
Definition line_ok (out : bool) (N : list string) (s' : pp_state) (l : line) : bool :=
  negb (active s') ||
  match l with
  | LIfdef n | LIfndef n => mem n N
  | LIf e => subset (expand_asked (pp_macros s') e) N
  | LText ts => negb out || subset (expand_asked (pp_macros s') ts) N
  | _ => true
  end.

Fixpoint run_ok (out : bool) (N : list string) (ls : list string) (s' : pp_state) : bool :=
  match ls with
  | [] => true
  | l :: ls' => line_ok out N s' (parse_line l) && run_ok out N ls' (step s' l)
  end.

(** [sim N pre epre s s']: the states agree on [N], and [s] has passed
    on the tokens [pre] (and met the errors [epre]) before what [s'] has
    passed on. *)
Definition sim (N : list string) (pre : list token) (epre : bool)
    (s s' : pp_state) : Prop :=
  agree N s s' /\ pp_out s = pre ++ pp_out s' /\ pp_err s = epre || pp_err s'.

(** The same state with nothing passed on yet. *)
Definition restart (s : pp_state) : pp_state :=
  mkPP (pp_macros s) (pp_conds s) [] false.

(** ** Vocabulary of the statements *)

(** The object-like macro whose replacement is the text [s]. *)
Definition object_like (s : string) : macro := mkMacro None (tokens s).

(** The names that the [#define] lines of a text define, in order. *)
Definition define_name (l : line) : option string :=
  match l with
  | LDefine n _ => Some n
  | _ => None
  end.

Definition defined_names (ls : list string) : list string :=
  omap (fun l => define_name (parse_line l)) ls.

(** How many [#define] lines of a text define [name]. *)
Definition count_defines (name : string) (ls : list string) : nat :=
  length (List.filter (String.eqb name) (defined_names ls)).

(** [name] has one [#define] line in the text of [c], and is defined
    once the text is read, whatever the options. *)
Definition defined_once (name : string) (c : Config) : Prop :=
  count_defines name (tccdefs c) = 1%nat /\
  forall o, is_Some (predefined_macros c o !! name).

(** [name] has no [#define] line in the text of [c] and is not defined
    once the text is read. *)
Definition never_defined (name : string) (c : Config) : Prop :=
  count_defines name (tccdefs c) = 0%nat /\
  forall o, predefined_macros c o !! name = None.

(** *** Some targets *)

Definition linux_x86_64 : Config :=
  {| PTR_SIZE := 8; LONG_SIZE := 8;
     TARGETOS_OpenBSD := false; TARGETOS_Linux := true;
     TARGETOS_FreeBSD := false; TARGETOS_FreeBSD_kernel := false;
     TARGETOS_NetBSD := false; TARGETOS_ANDROID := false;
     TCC_TARGET_PE := false; TCC_TARGET_MACHO := false;
     TCC_TARGET_I386 := false; TCC_TARGET_X86_64 := true;
     TCC_TARGET_ARM := false; TCC_TARGET_ARM64 := false;
     TCC_TARGET_RISCV64 := false; TCC_ARM_EABI := false |}.

Definition freebsd_x86_64 : Config :=
  {| PTR_SIZE := 8; LONG_SIZE := 8;
     TARGETOS_OpenBSD := false; TARGETOS_Linux := false;
     TARGETOS_FreeBSD := true; TARGETOS_FreeBSD_kernel := false;
     TARGETOS_NetBSD := false; TARGETOS_ANDROID := false;
     TCC_TARGET_PE := false; TCC_TARGET_MACHO := false;
     TCC_TARGET_I386 := false; TCC_TARGET_X86_64 := true;
     TCC_TARGET_ARM := false; TCC_TARGET_ARM64 := false;
     TCC_TARGET_RISCV64 := false; TCC_ARM_EABI := false |}.

Definition netbsd_x86_64 : Config :=
  {| PTR_SIZE := 8; LONG_SIZE := 8;
     TARGETOS_OpenBSD := false; TARGETOS_Linux := false;
     TARGETOS_FreeBSD := false; TARGETOS_FreeBSD_kernel := false;
     TARGETOS_NetBSD := true; TARGETOS_ANDROID := false;
     TCC_TARGET_PE := false; TCC_TARGET_MACHO := false;
     TCC_TARGET_I386 := false; TCC_TARGET_X86_64 := true;
     TCC_TARGET_ARM := false; TCC_TARGET_ARM64 := false;
     TCC_TARGET_RISCV64 := false; TCC_ARM_EABI := false |}.

Definition openbsd_i386 : Config :=
  {| PTR_SIZE := 4; LONG_SIZE := 4;
     TARGETOS_OpenBSD := true; TARGETOS_Linux := false;
     TARGETOS_FreeBSD := false; TARGETOS_FreeBSD_kernel := false;
     TARGETOS_NetBSD := false; TARGETOS_ANDROID := false;
     TCC_TARGET_PE := false; TCC_TARGET_MACHO := false;
     TCC_TARGET_I386 := true; TCC_TARGET_X86_64 := false;
     TCC_TARGET_ARM := false; TCC_TARGET_ARM64 := false;
     TCC_TARGET_RISCV64 := false; TCC_ARM_EABI := false |}.

Definition windows_x86_64 : Config :=
  {| PTR_SIZE := 8; LONG_SIZE := 4;
     TARGETOS_OpenBSD := false; TARGETOS_Linux := false;
     TARGETOS_FreeBSD := false; TARGETOS_FreeBSD_kernel := false;
     TARGETOS_NetBSD := false; TARGETOS_ANDROID := false;
     TCC_TARGET_PE := true; TCC_TARGET_MACHO := false;
     TCC_TARGET_I386 := false; TCC_TARGET_X86_64 := true;
     TCC_TARGET_ARM := false; TCC_TARGET_ARM64 := false;
     TCC_TARGET_RISCV64 := false; TCC_ARM_EABI := false |}.

Definition linux_riscv64 : Config :=
  {| PTR_SIZE := 8; LONG_SIZE := 8;
     TARGETOS_OpenBSD := false; TARGETOS_Linux := true;
     TARGETOS_FreeBSD := false; TARGETOS_FreeBSD_kernel := false;
     TARGETOS_NetBSD := false; TARGETOS_ANDROID := false;
     TCC_TARGET_PE := false; TCC_TARGET_MACHO := false;
     TCC_TARGET_I386 := false; TCC_TARGET_X86_64 := false;
     TCC_TARGET_ARM := false; TCC_TARGET_ARM64 := false;
     TCC_TARGET_RISCV64 := true; TCC_ARM_EABI := false |}.

(** The default options, and the same with bounds checking or with
    strict C11. *)
Definition default_options : Options :=
  {| language_std := STD_C99; preprocess_only := false;
     bounds_checking := false; leading_underscore := false |}.

Definition bounds_options : Options :=
  {| language_std := STD_C99; preprocess_only := false;
     bounds_checking := true; leading_underscore := false |}.

Definition c11_options : Options :=
  {| language_std := STD_C11; preprocess_only := false;
     bounds_checking := false; leading_underscore := false |}.

(** *** The decision table for the fundamental types (specification,
    section 4.2): first match wins. *)

Inductive data_model := ILP32 | LLP64 | LP64.

Global Instance data_model_eq_dec : EqDecision data_model.
Proof. solve_decision. Defined.

Global Instance frame_eq_dec : EqDecision frame.
Proof. solve_decision. Defined.

Definition spec_data_model (c : Config) : data_model :=
  if PTR_SIZE c =? 4 then ILP32
  else if LONG_SIZE c =? 4 then LLP64
  else LP64.

(** The three size types. *)
Inductive size_type := SZ_uint | SZ_ulong | SZ_ulonglong.

Definition size_text (z : size_type) : string :=
  match z with
  | SZ_uint => "unsigned int"
  | SZ_ulong => "unsigned long"
  | SZ_ulonglong => "unsigned long long"
  end.

Definition size_model (c : Config) : size_type :=
  match spec_data_model c with
  | ILP32 => if TARGETOS_OpenBSD c then SZ_ulong else SZ_uint
  | LLP64 => SZ_ulonglong
  | LP64 => SZ_ulong
  end.

Definition spec_size_type (c : Config) : string := size_text (size_model c).

Definition spec_ptrdiff_type (c : Config) : string :=
  match spec_data_model c with
  | ILP32 => if TARGETOS_OpenBSD c then "long" else "int"
  | LLP64 => "long long"
  | LP64 => "long"
  end.

Definition model_macro (m : data_model) : string :=
  match m with
  | ILP32 => "__ILP32__"
  | LLP64 => "__LLP64__"
  | LP64 => "__LP64__"
  end.

(** The names that the statements about the fundamental types read. *)
Definition type_names : list string :=
  [ "__SIZE_TYPE__"; "__PTRDIFF_TYPE__"; "__INTPTR_TYPE__"; "__UINTPTR_TYPE__";
    "__ILP32__"; "__LLP64__"; "__LP64__"; "__INT64_TYPE__"; "__TCC_PP__" ].

(** The lines of the header that matter for [type_names]. *)
Definition types_slice (c : Config) (o : Options) : pp_state :=
  run close_not_pp (run open_not_pp (run (derived_int_types c)
    (run (fundamental_types c) (initial o)))).

(** *** Strict C11 *)

Definition stdc_names : list string :=
  [ "__STDC_VERSION__"; "__STDC_NO_ATOMICS__"; "__STDC_NO_COMPLEX__";
    "__STDC_NO_THREADS__"; "__STDC_UTF_16__"; "__STDC_UTF_32__"; "__TCC_PP__" ].

Definition stdc_slice (c : Config) (o : Options) : pp_state :=
  run close_not_pp (run open_not_pp (run (stdc_c11 c) (initial o))).

(** *** The compiler version shown to the system headers *)

(** The branch of lines 81-138 that a configuration selects. *)
Inductive os_branch :=
| OS_PE | OS_FreeBSD | OS_FreeBSD_kernel | OS_NetBSD | OS_OpenBSD
| OS_MachO | OS_Android | OS_Linux.

Definition os_family (c : Config) : os_branch :=
  if TCC_TARGET_PE c then OS_PE
  else if TARGETOS_FreeBSD c then OS_FreeBSD
  else if TARGETOS_FreeBSD_kernel c then OS_FreeBSD_kernel
  else if TARGETOS_NetBSD c then OS_NetBSD
  else if TARGETOS_OpenBSD c then OS_OpenBSD
  else if TCC_TARGET_MACHO c then OS_MachO
  else if TARGETOS_ANDROID c then OS_Android
  else OS_Linux.

Definition gnuc_names : list string :=
  [ "__GNUC__"; "__GNUC_MINOR__"; "__GNUC_PATCHLEVEL__" ].

(** The values of [gnuc_names] for each branch, where defined. *)
Definition gnuc_version (b : os_branch) : list (option string) :=
  match b with
  | OS_FreeBSD => [Some "9"; Some "3"; Some "0"]
  | OS_NetBSD => [Some "4"; Some "1"; Some "0"]
  | OS_OpenBSD | OS_MachO => [Some "4"; None; None]
  | OS_PE | OS_FreeBSD_kernel | OS_Android | OS_Linux => [None; None; None]
  end.

(** The macro set of [c] has a value for each of [__GNUC__],
    [__GNUC_MINOR__] and [__GNUC_PATCHLEVEL__]. *)
Definition spoofs_gnuc_version (c : Config) : Prop :=
  forall o, Forall (fun n => is_Some (predefined_macros c o !! n)) gnuc_names.

Definition gnuc_slice (c : Config) (o : Options) : pp_state :=
  run close_not_pp (run open_not_pp (run (os_identity c) (initial o))).

(** *** The helper macros of the builtin block *)

Definition helper_macros : list string :=
  [ "__BUILTINBC"; "__BUILTIN"; "__BOUND"; "__BOTH"; "__MAYBE_REDIR"; "__RENAME" ].

Definition undef_line (name : string) : string :=
  "#undef " +:+ name +:+ String LF EmptyString.

Definition option_names : list string :=
  [ "__TCC_PP__"; "__leading_underscore"; "__BOUNDS_CHECKING_ON" ].

Definition helper_slice (c : Config) (o : Options) : pp_state :=
  run close_not_pp (run undef_helpers (run (maybe_redir c) (run (alias_both c)
    (run alias_helpers (run open_not_pp (initial o)))))).

(** ** Following the tokens passed on through the header *)

(** [track N out err s s']: the states agree on [N], and [s] has passed
    on exactly [out] with error mark [err]. *)
Definition track (N : list string) (out : list token) (err : bool)
    (s s' : pp_state) : Prop :=
  agree N s s' /\ pp_out s = out /\ pp_err s = err.

(** A run of lines on a state that starts with nothing passed on. *)
Definition slice_run (ls : list string) (s' : pp_state) : pp_state :=
  run ls (restart s').

Definition is_text (l : line) : bool :=
  match l with
  | LText _ => true
  | _ => false
  end.

(** No line of [ls] passes tokens on. *)
Definition no_text (ls : list string) : bool :=
  forallb (fun l => negb (is_text (parse_line l))) ls.

(** *** The declarations of the header *)

(** The entry points declared by the builtin table. *)
Definition builtin_functions : list string :=
  [ "memcpy"; "memmove"; "memset"; "memcmp"; "strlen"; "strcpy"; "strncpy";
    "strcmp"; "strncmp"; "strcat"; "strncat"; "strchr"; "strrchr"; "strdup";
    "__aeabi_memcpy"; "__aeabi_memmove"; "__aeabi_memmove4";
    "__aeabi_memmove8"; "__aeabi_memset";
    "malloc"; "realloc"; "calloc"; "memalign"; "free";
    "alloca"; "abort"; "longjmp"; "mmap"; "munmap" ].

Definition builtin_alias (f : string) : string := "__builtin_" +:+ f.

(** The identifiers of the declarations that are not entry points. *)
Definition decl_words : list string :=
  [ "typedef"; "struct"; "union"; "unsigned"; "long"; "int"; "char"; "void";
    "const"; "__asm__"; "__builtin_va_list"; "gp_offset"; "fp_offset";
    "overflow_offset"; "overflow_arg_area"; "reg_save_area"; "__va_arg";
    "ap"; "arg_type"; "size"; "align"; "__stack"; "__gr_top"; "__vr_top";
    "__gr_offs"; "__vr_offs" ].

(** The names whose definition the declarations of the header depend
    on. *)
Definition decl_names : list string :=
  option_names ++ helper_macros ++ ["__STDC_VERSION__"; "__SIZE_TYPE__"]
  ++ decl_words
  ++ builtin_functions ++ map builtin_alias builtin_functions.

(** The one definition of lines 19-46 that the declarations depend on. *)
Definition size_define (z : size_type) : list string :=
  emit
    match z with
    | SZ_uint => [ "#define __SIZE_TYPE__ unsigned int\n" ]
    | SZ_ulong => [ "#define __SIZE_TYPE__ unsigned long\n" ]
    | SZ_ulonglong => [ "#define __SIZE_TYPE__ unsigned long long\n" ]
    end.

Definition sized_state (c : Config) (o : Options) : pp_state :=
  slice_run (size_define (size_model c)) (initial o).

(** The same open conditionals and the same definitions for [N], as a
    boolean. *)
Definition agreeb (N : list string) (s s' : pp_state) : bool :=
  bool_decide (pp_conds s = pp_conds s') &&
  forallb (fun n => bool_decide (pp_macros s !! n = pp_macros s' !! n)) N.

(** The lines that matter for [decl_names]: up to [#ifndef __TCC_PP__],
    up to the builtin table, and up to the allocator. *)
Definition head_state (c : Config) (o : Options) : pp_state :=
  slice_run open_not_pp (sized_state c o).

Definition table_state (c : Config) (o : Options) : pp_state :=
  slice_run (alias_both c) (slice_run alias_helpers (head_state c o)).

Definition alloc_state (c : Config) (o : Options) : pp_state :=
  slice_run (maybe_redir c) (table_state c o).

(** What each group of declaration lines passes on. *)
Definition va_out (c : Config) (o : Options) : list token :=
  pp_out (slice_run (va_list_abi c) (head_state c o)).

Definition strings_out (c : Config) (o : Options) : list token :=
  pp_out (slice_run (string_builtins c) (table_state c o)).

Definition alloc_out (c : Config) (o : Options) : list token :=
  pp_out (slice_run alloc_builtins (alloc_state c o)).

Definition misc_out (c : Config) (o : Options) : list token :=
  pp_out (slice_run (misc_builtins c) (alloc_state c o)).

(** A line that can neither pass tokens on nor be in error, as long as
    the conditionals nest. *)
Definition quiet_line (l : line) : bool :=
  match l with
  | LDefine _ _ | LUndef _ | LIfdef _ | LIfndef _ | LElse | LEndif => true
  | LIf _ | LText _ | LBad => false
  end.

Definition quiet (ls : list string) : bool :=
  balanced ls && forallb (fun l => quiet_line (parse_line l)) ls.

(** *** The declarations of [malloc] (specification, section 4.4) *)

(** The object-code symbol that a declaration is bound to. *)
Definition asm_symbol (o : Options) (s : string) : string :=
  if leading_underscore o then "_" +:+ s else s.

(** [void* name(size type) __asm__("sym");] *)
Definition malloc_decl (c : Config) (o : Options) (name sym : string) : list token :=
  tokens "void*" ++ [TId name] ++ tokens "(" ++ tokens (spec_size_type c)
  ++ tokens ")__asm__(" ++ [TStr (asm_symbol o sym)] ++ tokens ");".

(** The pair of declarations bound to the instrumented symbol. *)
Definition malloc_bound_pair (c : Config) (o : Options) : list token :=
  malloc_decl c o "__builtin_malloc" "__bound_malloc"
  ++ malloc_decl c o "malloc" "__bound_malloc".

(** The single declaration bound to the plain symbol. *)
Definition malloc_plain (c : Config) (o : Options) : list token :=
  malloc_decl c o "__builtin_malloc" "malloc".

Definition malloc_decls (c : Config) (o : Options) : list token :=
  if TARGETOS_Linux c || TCC_TARGET_MACHO c then malloc_plain c o
  else if bounds_checking o then malloc_bound_pair c o
  else malloc_plain c o.

(** A token that names an entry point of the builtin table, under its
    own name or under its [__builtin_] name. *)
Definition names_builtin (t : token) : bool :=
  match t with
  | TId x => mem x builtin_functions || mem x (map builtin_alias builtin_functions)
  | _ => false
  end.

(** [ts] occurs in [decls] as a run of consecutive tokens, and [malloc]
    and [__builtin_malloc] are not named anywhere else in [decls]. *)
Definition names_malloc (t : token) : bool :=
  match t with
  | TId x => String.eqb x "malloc" || String.eqb x "__builtin_malloc"
  | _ => false
  end.

Definition declares_malloc_as (ts decls : list token) : Prop :=
  exists pre post,
    decls = pre ++ ts ++ post /\
    existsb names_malloc pre = false /\ existsb names_malloc post = false.

(** *** Variadic arguments on 64-bit Windows

    Line 194 defines [__builtin_va_arg(ap,t)] as [win64_va_arg_body]
    below: a conditional expression on the size of [t], whose two
    branches both evaluate [(ap+=8)-8] and read a [t] there, directly
    or through one more pointer.  [ap] is a [char] pointer (line 193).
    Pointers and [sizeof] are unsigned 64-bit values on this target;
    their arithmetic wraps around. *)

Definition win64_va_arg_body : string :=
  "((sizeof(t)>8||(sizeof(t)&(sizeof(t)-1)))?**(t**)((ap+=8)-8):*(t*)((ap+=8)-8))".

Definition wrap64 (x : Z) : Z := x mod 2 ^ 64.

(** How the argument is read: a [t] at [p], or a [t] at the address
    stored at [p]. *)
Inductive va_access :=
| ReadAt (p : Z)
| ReadThrough (p : Z).

(** The condition: [sizeof(t)>8||(sizeof(t)&(sizeof(t)-1))]. *)
Definition win64_by_reference (size : Z) : bool :=
  (size >? 8) || negb (Z.land size (wrap64 (size - 1)) =? 0).

(** [(ap+=8)-8]: the new [ap] and the value of the expression. *)
Definition win64_next_slot (ap : Z) : Z * Z :=
  let ap' := wrap64 (ap + 8) in (ap', wrap64 (ap' - 8)).

(** The macro: the new [ap] and the way the argument is read. *)
Definition win64_va_arg (ap size : Z) : Z * va_access :=
  let '(ap', slot) := win64_next_slot ap in
  (ap', if win64_by_reference size then ReadThrough slot else ReadAt slot).

Definition power_of_two (n : Z) : Prop := exists k, 0 <= k /\ n = 2 ^ k.

(** The reading of the macro that takes every size for a size of an
    argument: the argument is read through one more pointer exactly when
    its size is above 8 or is not a power of two. *)
Definition by_reference_unless_small_power_of_two (ap size : Z) : Prop :=
  snd (win64_va_arg ap size) = ReadThrough ap <->
  8 < size \/ ~ power_of_two size.

(** ** Names used and names defined, line by line

    A static view of the text, for the order of its definitions: the
    names a line brings into scope, and the names a line mentions in the
    body of a definition or in a declaration.  Conditions of [#if],
    [#ifdef] and [#ifndef] use no name in this sense. *)

Definition idents (ts : list token) : list string :=
  omap (fun t => match t with TId x => Some x | _ => None end) ts.

(** The name a [typedef] brings into scope is the identifier that ends
    its declarator: [x;] or [x[1];]. *)
Fixpoint declarator_name (ts : list token) : option string :=
  match ts with
  | [] => None
  | t :: rest =>
      match t, rest with
      | TId x, TPunct p :: _ =>
          if String.eqb p ";" || String.eqb p "[" then Some x
          else declarator_name rest
      | _, _ => declarator_name rest
      end
  end.

(** The name of a prototype is the identifier before its parameter
    list. *)
Fixpoint prototype_name (ts : list token) : option string :=
  match ts with
  | [] => None
  | t :: rest =>
      match t, rest with
      | TId f, TPunct p :: _ =>
          if String.eqb p "(" then Some f else prototype_name rest
      | _, _ => prototype_name rest
      end
  end.

Definition starts_typedef (ts : list token) : bool :=
  match ts with
  | TId k :: _ => String.eqb k "typedef"
  | TPunct p :: _ => String.eqb p "}"
  | _ => false
  end.

Definition starts_call (ts : list token) : bool :=
  match ts with
  | TId _ :: TPunct p :: _ => String.eqb p "("
  | _ => false
  end.

(** The names a line of declarations brings into file scope: the name of
    a [typedef] (on the line that starts the [typedef], or on the line
    that closes its record), or the name of a function prototype.  A
    line that starts with a macro invocation, and the member lines of a
    record, declare nothing by themselves. *)
Definition declares (ts : list token) : list string :=
  if starts_typedef ts then option_list (declarator_name ts)
  else if starts_call ts then []
  else option_list (prototype_name ts).

Definition line_defines (l : line) : list string :=
  match l with
  | LDefine n _ => [n]
  | LText ts => declares ts
  | _ => []
  end.

(** The names a line uses: the identifiers of a macro body other than
    the macro's parameters, and the identifiers of a declaration other
    than the names it declares. *)
Definition line_uses (l : line) : list string :=
  match l with
  | LDefine _ m =>
      List.filter (fun x => negb (mem x (default [] (m_params m))))
             (idents (m_body m))
  | LText ts => List.filter (fun x => negb (mem x (declares ts))) (idents ts)
  | _ => []
  end.

(** The names in scope after a line: [#undef] removes one. *)
Definition defined_after (l : line) (D : list string) : list string :=
  match l with
  | LUndef n => List.filter (fun x => negb (String.eqb x n)) D
  | _ => line_defines l ++ D
  end.

Definition defined_by (ls : list string) (D : list string) : list string :=
  fold_left (fun D l => defined_after (parse_line l) D) ls D.

(** Every name the text defines on some line. *)
Definition text_defines (ls : list string) : list string :=
  flat_map (fun l => line_defines (parse_line l)) ls.

(** The names of [N] are defined before they are used: whenever line [i]
    uses a name of [N], the lines before [i] have defined it (and not
    undefined it since). *)
Definition names_defined_before_use (N : list string) (text : list string) : Prop :=
  forall (i : nat) (l x : string),
    text !! i = Some l ->
    mem x (line_uses (parse_line l)) = true ->
    mem x N = true ->
    mem x (defined_by (take i text) []) = true.

(** The same as a check that runs over the text, from the names [D] in
    scope before it. *)
Fixpoint scan (N D : list string) (ls : list string) : bool :=
  match ls with
  | [] => true
  | l :: ls' =>
      forallb (fun x => negb (mem x N) || mem x D) (line_uses (parse_line l))
      && scan N (defined_after (parse_line l) D) ls'
  end.

(** Every name some configuration of the header defines. *)
Definition header_names : list string :=
  [ "__SIZE_TYPE__"; "__PTRDIFF_TYPE__"; "__ILP32__"; "__INT64_TYPE__";
    "__LLP64__"; "__LP64__"; "__SIZEOF_INT__"; "__INT_MAX__";
    "__LONG_MAX__"; "__SIZEOF_LONG_LONG__"; "__LONG_LONG_MAX__";
    "__CHAR_BIT__"; "__ORDER_LITTLE_ENDIAN__"; "__ORDER_BIG_ENDIAN__";
    "__BYTE_ORDER__"; "__WCHAR_TYPE__"; "__WINT_TYPE__";
    "__STDC_NO_ATOMICS__"; "__STDC_NO_COMPLEX__"; "__STDC_NO_THREADS__";
    "__STDC_UTF_16__"; "__STDC_UTF_32__"; "__declspec"; "__cdecl";
    "__GNUC__"; "__GNUC_MINOR__"; "__GNUC_PATCHLEVEL__";
    "__GNUC_STDC_INLINE__"; "__NO_TLS"; "__RUNETYPE_INTERNAL";
    "__int128_t"; "__SIZEOF_SIZE_T__"; "__SIZEOF_PTRDIFF_T__"; "_Pragma";
    "__ELF__"; "_LOCORE"; "_ANSI_LIBRARY"; "__APPLE_CC__";
    "__LITTLE_ENDIAN__"; "_DONT_USE_CTYPE_INLINE_"; "__FINITE_MATH_ONLY__";
    "_FORTIFY_SOURCE"; "BIONIC_IOCTL_NO_SIGNEDNESS_OVERLOAD";
    "__PRETTY_FUNCTION__"; "__has_builtin"; "_Nonnull"; "_Nullable";
    "__UINTPTR_TYPE__"; "__INTPTR_TYPE__"; "__INT32_TYPE__"; "__REDIRECT";
    "__REDIRECT_NTH"; "__builtin_offsetof";
    "__builtin_extract_return_addr"; "__builtin_huge_val";
    "__builtin_huge_valf"; "__builtin_huge_vall"; "__builtin_nanf";
    "__builtin_flt_rounds"; "__builtin_bzero"; "__builtin_va_start";
    "__builtin_va_arg"; "__builtin_va_copy"; "_tcc_alignof"; "_tcc_align";
    "__va_reg_size"; "__builtin_va_end"; "__RENAME"; "__BUILTINBC";
    "__BOUND"; "__BOTH"; "__BUILTIN"; "__MAYBE_REDIR"; "__builtin_va_list";
    "__va_arg" ].

(** [D] holds every name of [K]. *)
Definition covers (K D : list string) : Prop :=
  forall x, mem x K = true -> mem x D = true.

(** ** Vocabulary of the statements about the rest of the header *)

(** *** The value of an integer constant

    A decimal or hexadecimal constant with its suffix dropped (the
    header has no octal constant; a leading 0 followed by a digit has no
    value here). *)
Definition hex_digit (a : ascii) : option Z :=
  let n := Z.of_N (N_of_ascii a) in
  if (48 <=? n) && (n <=? 57) then Some (n - 48)
  else if (97 <=? n) && (n <=? 102) then Some (n - 87)
  else if (65 <=? n) && (n <=? 70) then Some (n - 55)
  else None.

Definition is_int_suffix (s : string) : bool :=
  forallb (fun x => (Ascii.eqb x "L" || Ascii.eqb x "l"
                     || Ascii.eqb x "U" || Ascii.eqb x "u")%bool)
    (list_ascii_of_string s).

Fixpoint hex_value (s : string) (acc : Z) : option Z :=
  match s with
  | EmptyString => Some acc
  | String a s' =>
      match hex_digit a with
      | Some d => hex_value s' (16 * acc + d)
      | None => if is_int_suffix s then Some acc else None
      end
  end.

Definition c_integer (s : string) : option Z :=
  match s with
  | String "0" (String x s') =>
      if (Ascii.eqb x "x" || Ascii.eqb x "X")%bool then
        match s' with
        | EmptyString => None
        | _ => hex_value s' 0
        end
      else if is_digit x then None
      else decimal_value s 0
  | _ => decimal_value s 0
  end.

(** The value of an object-like macro that is one integer constant. *)
Definition macro_value (M : gmap string macro) (n : string) : option Z :=
  match M !! n with
  | Some (mkMacro None [TNum s]) => c_integer s
  | _ => None
  end.

(** *** The macros in front of the builtin block *)

Definition front_names : list string :=
  [ "__SIZEOF_INT__"; "__INT_MAX__"; "__LONG_MAX__"; "__SIZEOF_LONG_LONG__";
    "__LONG_LONG_MAX__"; "__CHAR_BIT__"; "__ORDER_LITTLE_ENDIAN__";
    "__ORDER_BIG_ENDIAN__"; "__BYTE_ORDER__"; "__WCHAR_TYPE__";
    "__WINT_TYPE__"; "__INT32_TYPE__"; "__REDIRECT"; "__REDIRECT_NTH";
    "__TCC_PP__" ].

(** The lines of the header that matter for [front_names]. *)
Definition front_slice (c : Config) (o : Options) : pp_state :=
  run close_not_pp (run open_not_pp (run (glibc_redirect c)
    (run (derived_int_types c) (run (wide_char_types c)
      (run (integer_limits c) (initial o)))))).

(** The wide-character types of lines 60-69. *)
Definition wchar_type (c : Config) : string :=
  if TCC_TARGET_PE c then "unsigned short" else "int".

Definition wint_type (c : Config) : string :=
  if TCC_TARGET_PE c then "unsigned short"
  else if TARGETOS_Linux c then "unsigned int"
  else "int".

(** The words of the types that the size macros stand for. *)
Definition type_words : list string := [ "unsigned"; "long"; "int" ].

(** The function-like macro with parameters [ps] and replacement [s]. *)
Definition function_like (ps : list string) (s : string) : macro :=
  mkMacro (Some ps) (tokens s).

(** The macros of lines 148-149, off Windows/PE. *)
Definition redirect_macro (c : Config) (s : string) : option macro :=
  if TCC_TARGET_PE c then None
  else Some (function_like ["name"; "proto"; "alias"] s).

(** *** The identity of the operating system (lines 81-138) *)

Global Instance os_branch_eq_dec : EqDecision os_branch.
Proof. solve_decision. Defined.

Definition os_branches : list os_branch :=
  [ OS_PE; OS_FreeBSD; OS_FreeBSD_kernel; OS_NetBSD; OS_OpenBSD;
    OS_MachO; OS_Android; OS_Linux ].

(** The macros that one branch alone defines. *)
Definition os_marker (b : os_branch) : list string :=
  match b with
  | OS_PE => [ "__declspec"; "__cdecl" ]
  | OS_FreeBSD =>
      [ "__GNUC_STDC_INLINE__"; "__NO_TLS"; "__RUNETYPE_INTERNAL";
        "__SIZEOF_SIZE_T__"; "__SIZEOF_PTRDIFF_T__" ]
  | OS_NetBSD => [ "_Pragma"; "__ELF__" ]
  | OS_OpenBSD => [ "_ANSI_LIBRARY" ]
  | OS_MachO =>
      [ "__APPLE_CC__"; "__LITTLE_ENDIAN__"; "_DONT_USE_CTYPE_INLINE_";
        "__FINITE_MATH_ONLY__"; "_FORTIFY_SOURCE" ]
  | OS_Android =>
      [ "BIONIC_IOCTL_NO_SIGNEDNESS_OVERLOAD"; "__PRETTY_FUNCTION__";
        "__has_builtin"; "_Nonnull"; "_Nullable" ]
  | OS_FreeBSD_kernel | OS_Linux => []
  end.

Definition os_names : list string :=
  flat_map os_marker os_branches ++ [ "__int128_t"; "_LOCORE"; "__TCC_PP__" ].

(** The settings that matter to a name the options do not define:
    whether the text is read for preprocessing only. *)
Definition plain_options (pp : bool) : Options :=
  {| language_std := STD_C99; preprocess_only := pp;
     bounds_checking := false; leading_underscore := false |}.

Definition set_by_options : list string :=
  [ "__STDC_VERSION__"; "__BOUNDS_CHECKING_ON"; "__leading_underscore" ].

Definition os_slice (c : Config) (pp : bool) : pp_state :=
  run close_not_pp (run open_not_pp (run (os_identity c)
    (initial (plain_options pp)))).

(** In [M] the markers of branch [a] are defined, and those of the
    other branches are not. *)
Definition os_check (M : gmap string macro) (a : os_branch) : bool :=
  forallb (fun b =>
    forallb (fun n => eqb (bool_decide (is_Some (M !! n))) (bool_decide (b = a)))
      (os_marker b))
    os_branches.

(** *** The builtin macros and the variadic-argument macros
    (lines 153-232) *)

(** The branch of lines 173-228 that a configuration selects. *)
Inductive va_abi :=
| VA_SysV | VA_Win64 | VA_ARM | VA_ARM64_MachO | VA_ARM64 | VA_RISCV64 | VA_I386.

Global Instance va_abi_eq_dec : EqDecision va_abi.
Proof. solve_decision. Defined.

Definition va_branch (c : Config) : va_abi :=
  if TCC_TARGET_X86_64 c then
    (if negb (TCC_TARGET_PE c) then VA_SysV else VA_Win64)
  else if TCC_TARGET_ARM c then VA_ARM
  else if TCC_TARGET_ARM64 c then
    (if TCC_TARGET_MACHO c then VA_ARM64_MachO else VA_ARM64)
  else if TCC_TARGET_RISCV64 c then VA_RISCV64
  else VA_I386.

Definition is_va (bs : list va_abi) (c : Config) : bool :=
  bool_decide (va_branch c ∈ bs).

(** The macros of the block, each with the configurations that have
    it. *)
Definition block_table (c : Config) : list (string * bool) :=
  let math := negb (TARGETOS_Linux c) && negb (TCC_TARGET_PE c) in
  [ ("__builtin_offsetof", true);
    ("__builtin_extract_return_addr", true);
    ("__builtin_huge_val", math);
    ("__builtin_huge_valf", math);
    ("__builtin_huge_vall", math);
    ("__builtin_nanf", math);
    ("__builtin_flt_rounds", math && TCC_TARGET_MACHO c);
    ("__builtin_bzero", math && TCC_TARGET_MACHO c);
    ("__builtin_va_start", is_va [VA_SysV; VA_ARM; VA_I386] c);
    ("__builtin_va_arg",
       is_va [VA_SysV; VA_Win64; VA_ARM; VA_RISCV64; VA_I386] c);
    ("__builtin_va_copy", true);
    ("__builtin_va_end", true);
    ("_tcc_alignof", is_va [VA_ARM] c);
    ("_tcc_align", is_va [VA_ARM; VA_RISCV64] c);
    ("__va_reg_size", is_va [VA_RISCV64] c) ].

Definition block_macros : list string :=
  [ "__builtin_offsetof"; "__builtin_extract_return_addr";
    "__builtin_huge_val"; "__builtin_huge_valf"; "__builtin_huge_vall";
    "__builtin_nanf"; "__builtin_flt_rounds"; "__builtin_bzero";
    "__builtin_va_start"; "__builtin_va_arg"; "__builtin_va_copy";
    "__builtin_va_end"; "_tcc_alignof"; "_tcc_align"; "__va_reg_size" ].

Definition block_names : list string := block_macros ++ [ "__TCC_PP__" ].

Definition block_slice (c : Config) (pp : bool) : pp_state :=
  run close_not_pp (run va_common (run (va_list_abi c)
    (run (builtin_macros c) (run open_not_pp (initial (plain_options pp)))))).

Definition defined_in (M : gmap string macro) (n : string) : bool :=
  bool_decide (is_Some (M !! n)).

(** [M] has exactly the names of [table] that are marked. *)
Definition defined_as (M : gmap string macro) (table : list (string * bool)) : bool :=
  forallb (fun e => eqb (defined_in M e.1) e.2) table.

(** The table under a mode: nothing of it is defined when the text is
    read for preprocessing only. *)
Definition in_mode (pp : bool) (table : list (string * bool)) : list (string * bool) :=
  map (fun e => (e.1, negb pp && e.2)) table.

(** The two definitions of [__builtin_va_copy]: line 190 and line 231. *)
Definition va_copy_macro (c : Config) : macro :=
  function_like ["dest"; "src"]
    (if TCC_TARGET_X86_64 c && negb (TCC_TARGET_PE c)
     then "(*(dest)=*(src))" else "(dest)=(src)").

Definition va_copy_check (M : gmap string macro) (m : macro) : bool :=
  bool_decide (M !! "__builtin_va_copy" = Some m) &&
  bool_decide (M !! "__builtin_va_end" = Some (function_like ["ap"] "(void)(ap)")).

(** *** Variadic arguments on the 32-bit targets
    (lines 197-202 and 223-226)

    On these targets pointers, [unsigned] and [sizeof] are 32-bit
    values whose arithmetic wraps around; [ap] is a [char] pointer, and
    [~3] and [~(a-1)] are [int] values converted to [unsigned]. *)

Definition wrap32 (x : Z) : Z := x mod 2 ^ 32.

Definition va_start32_body : string :=
  "(ap=((char*)&(last))+((sizeof(last)+3)&~3))".

Definition i386_va_arg_body : string :=
  "(*(t*)((ap+=(sizeof(t)+3)&~3)-((sizeof(t)+3)&~3)))".

Definition arm_alignof_body : string :=
  "((int)&((struct{char c;type x;}*)0)->x)".

Definition arm_align_body : string :=
  "(((unsigned)addr+_tcc_alignof(type)-1)&~(_tcc_alignof(type)-1))".

Definition arm_va_arg_body : string :=
  "(ap=(void*)((_tcc_align(ap,type)+sizeof(type)+3)&~3),*(type*)(ap-((sizeof(type)+3)&~3)))".

(** [(sizeof(t)+3)&~3] *)
Definition slot4 (size : Z) : Z :=
  Z.land (wrap32 (size + 3)) (wrap32 (Z.lnot 3)).

(** [__builtin_va_start(ap,last)]: the new [ap], from the address and
    the size of the last named parameter. *)
Definition va_start32 (last size : Z) : Z := wrap32 (last + slot4 size).

(** i386 [__builtin_va_arg(ap,t)], [(ap+=slot)-slot]: the new [ap] and
    the address the argument is read at. *)
Definition i386_va_arg (ap size : Z) : Z * Z :=
  let ap' := wrap32 (ap + slot4 size) in
  (ap', wrap32 (ap' - slot4 size)).

(** ARM [_tcc_align(addr,type)], where [a] is the value of
    [_tcc_alignof(type)], the offset of a member of that type behind a
    [char]. *)
Definition arm_align (addr a : Z) : Z :=
  Z.land (wrap32 (wrap32 (addr + a) - 1)) (wrap32 (Z.lnot (a - 1))).

(** ARM [__builtin_va_arg(ap,type)]: the new [ap] and the address the
    argument is read at. *)
Definition arm_va_arg (ap a size : Z) : Z * Z :=
  let ap' := Z.land (wrap32 (wrap32 (arm_align ap a + size) + 3))
               (wrap32 (Z.lnot 3)) in
  (ap', wrap32 (ap' - slot4 size)).

(** [x] rounded up to a multiple of [a]. *)
Definition round_up (x a : Z) : Z := a * ((x + a - 1) / a).

Definition linux_arm : Config :=
  {| PTR_SIZE := 4; LONG_SIZE := 4;
     TARGETOS_OpenBSD := false; TARGETOS_Linux := true;
     TARGETOS_FreeBSD := false; TARGETOS_FreeBSD_kernel := false;
     TARGETOS_NetBSD := false; TARGETOS_ANDROID := false;
     TCC_TARGET_PE := false; TCC_TARGET_MACHO := false;
     TCC_TARGET_I386 := false; TCC_TARGET_X86_64 := false;
     TCC_TARGET_ARM := true; TCC_TARGET_ARM64 := false;
     TCC_TARGET_RISCV64 := false; TCC_ARM_EABI := true |}.

(** *** Variadic arguments on RISC-V (lines 217-221)

    Pointers, [unsigned long], [sizeof] and [__alignof__] are 64-bit
    values; [reg] is the value of [__va_reg_size], that is of
    [__riscv_xlen>>3], an [int]. *)

Definition riscv_reg_size_body : string := "(__riscv_xlen>>3)".

Definition riscv_align_body : string :=
  "(((unsigned long)addr+__alignof__(type)-1)&-(__alignof__(type)))".

Definition riscv_va_arg_body : string :=
  "(*(sizeof(type)>(2*__va_reg_size)?*(type**)((ap+=__va_reg_size)-__va_reg_size):(ap=(va_list)(_tcc_align(ap,type)+(sizeof(type)+__va_reg_size-1)&-__va_reg_size),(type*)(ap-((sizeof(type)+__va_reg_size-1)&-__va_reg_size)))))".

(** [_tcc_align(addr,type)] with [a] the value of [__alignof__(type)]. *)
Definition riscv_align (addr a : Z) : Z :=
  Z.land (wrap64 (wrap64 (addr + a) - 1)) (wrap64 (- a)).

(** [(sizeof(type)+__va_reg_size-1)&-__va_reg_size] *)
Definition riscv_slot (reg size : Z) : Z :=
  Z.land (wrap64 (wrap64 (size + reg) - 1)) (wrap64 (- reg)).

(** [__builtin_va_arg(ap,type)]: the new [ap] and how the argument is
    read.  In the second branch [+] binds tighter than [&]: the sum of
    the aligned [ap] and of [sizeof(type)+__va_reg_size-1] is masked. *)
Definition riscv_va_arg (reg ap a size : Z) : Z * va_access :=
  if size >? 2 * reg then
    let ap' := wrap64 (ap + reg) in
    (ap', ReadThrough (wrap64 (ap' - reg)))
  else
    let ap' := Z.land (wrap64 (riscv_align ap a + wrap64 (wrap64 (size + reg) - 1)))
                 (wrap64 (- reg)) in
    (ap', ReadAt (wrap64 (ap' - riscv_slot reg size))).

(** *** The declarations of the builtin table (lines 234-298) *)

(** Reading the declarations: a function declarator is an identifier
    followed by a parenthesis outside any parenthesis; [__asm__("s")]
    after it binds the function to the symbol [s]; a semicolon ends the
    declaration. *)
Record decl_state := mkDecl {
  ds_prev : option string;  (* the identifier just read *)
  ds_name : option string;  (* the function being declared *)
  ds_depth : nat;           (* open parentheses *)
  ds_asm : bool             (* inside the parentheses of [__asm__] *)
}.

Global Instance decl_state_eq_dec : EqDecision decl_state.
Proof. solve_decision. Defined.

Definition decl_start : decl_state := mkDecl None None 0 false.

Definition decl_step (st : decl_state) (t : token)
    : decl_state * list (string * string) :=
  match t with
  | TId x => (mkDecl (Some x) (ds_name st) (ds_depth st) (ds_asm st), [])
  | TStr s =>
      (mkDecl None (ds_name st) (ds_depth st) (ds_asm st),
       if ds_asm st then
         match ds_name st with
         | Some f => [(f, s)]
         | None => []
         end
       else [])
  | TNum _ => (mkDecl None (ds_name st) (ds_depth st) (ds_asm st), [])
  | TPunct p =>
      if String.eqb p "(" then
        match ds_depth st, ds_prev st with
        | O, Some x =>
            if String.eqb x "__asm__" then (mkDecl None (ds_name st) 1 true, [])
            else (mkDecl None (Some x) 1 false, [])
        | d, _ => (mkDecl None (ds_name st) (S d) (ds_asm st), [])
        end
      else if String.eqb p ")" then
        match ds_depth st with
        | S (S d) => (mkDecl None (ds_name st) (S d) (ds_asm st), [])
        | _ => (mkDecl None (ds_name st) 0 false, [])
        end
      else if String.eqb p ";" then
        match ds_depth st with
        | O => (decl_start, [])
        | _ => (mkDecl None (ds_name st) (ds_depth st) (ds_asm st), [])
        end
      else (mkDecl None (ds_name st) (ds_depth st) (ds_asm st), [])
  end.

Fixpoint bindings_from (st : decl_state) (ts : list token)
    : list (string * string) * decl_state :=
  match ts with
  | [] => ([], st)
  | t :: rest =>
      let '(st', b) := decl_step st t in
      let '(bs, st'') := bindings_from st' rest in
      (b ++ bs, st'')
  end.

(** The functions that a run of declarations declares with a symbol,
    each with its symbol, in order. *)
Definition bindings (ts : list token) : list (string * string) :=
  (bindings_from decl_start ts).1.

(** The table of lines 256-298 as data: the helper macro of each line
    and the function it is applied to. *)
Inductive entry_kind := K_BOTH | K_BOUND | K_BUILTIN | K_MAYBE_REDIR.

Definition strings_table (c : Config) : list (entry_kind * string) :=
  map (pair K_BOTH)
    [ "memcpy"; "memmove"; "memset"; "memcmp"; "strlen"; "strcpy";
      "strncpy"; "strcmp"; "strncmp"; "strcat"; "strncat"; "strchr";
      "strrchr"; "strdup" ]
  ++ (if TCC_ARM_EABI c then
        map (pair K_BOUND)
          [ "__aeabi_memcpy"; "__aeabi_memmove"; "__aeabi_memmove4";
            "__aeabi_memmove8"; "__aeabi_memset" ]
      else []).

Definition alloc_table : list (entry_kind * string) :=
  map (pair K_MAYBE_REDIR) [ "malloc"; "realloc"; "calloc"; "memalign"; "free" ].

Definition misc_table (c : Config) : list (entry_kind * string) :=
  [ (if TCC_TARGET_I386 c || TCC_TARGET_X86_64 c then K_BOTH else K_BUILTIN,
     "alloca");
    (K_BUILTIN, "abort");
    (K_BOUND, "longjmp") ]
  ++ (if negb (TCC_TARGET_PE c) then [ (K_BOUND, "mmap"); (K_BOUND, "munmap") ]
      else []).

Definition table_entries (c : Config) : list (entry_kind * string) :=
  strings_table c ++ alloc_table ++ misc_table c.

(** What the helper macros of lines 235-254 and 278-282 make of an
    entry.  [pe]: the target is Windows/PE; [redir]: the system
    redirects the allocator itself (Linux, Mach-O); [bc]: bounds checking;
    [lu]: symbols have a leading underscore. *)
Definition rename (lu : bool) (s : string) : string :=
  if lu then "_" +:+ s else s.

Definition bound_symbol (f : string) : string := "__bound_" +:+ f.

Definition entry_bindings (pe redir bc lu : bool) (e : entry_kind * string)
    : list (string * string) :=
  let f := e.2 in
  let bound := if bc then [(f, rename lu (bound_symbol f))] else [] in
  let builtinbc :=
    [(builtin_alias f, rename lu (if bc then bound_symbol f else f))] in
  let builtin := if pe then [] else [(builtin_alias f, rename lu f)] in
  let both := if pe then bound else builtinbc ++ bound in
  match e.1 with
  | K_BOUND => bound
  | K_BUILTIN => builtin
  | K_BOTH => both
  | K_MAYBE_REDIR => if redir then builtin else both
  end.

Definition table_bindings (c : Config) (o : Options)
    (table : list (entry_kind * string)) : list (string * string) :=
  if preprocess_only o then []
  else flat_map
         (entry_bindings (TCC_TARGET_PE c)
            (TARGETOS_Linux c || TCC_TARGET_MACHO c)
            (bounds_checking o) (leading_underscore o))
         table.

(** *** The text as a whole *)

(** How many lines of a text bring [name] into scope by a declaration. *)
Definition count_declares (name : string) (ls : list string) : nat :=
  length (List.filter (String.eqb name)
            (flat_map (fun l => match parse_line l with
                                | LText ts => declares ts
                                | _ => []
                                end) ls)).

(** The names that the text uses and leaves to whoever includes it. *)
Definition environment_names : list string :=
  [ "va_list"; "__THROW"; "__riscv_xlen"; "__FUNCTION__"; "bzero";
    "__attribute__"; "__builtin_frame_address"; "__builtin_va_arg_types" ].

(** * Proofs *)

Global Opaque pp_fuel.
Global Arguments expand : simpl never.
Global Arguments expand_tokens : simpl never.
Global Arguments expand_asked : simpl never.
Global Arguments eval_if : simpl never.

(** ** Reasoning about runs of the preprocessor *)

Lemma run_app (ls1 ls2 : list string) (s : pp_state) :
  run (ls1 ++ ls2) s = run ls2 (run ls1 s).
Proof. apply fold_left_app. Qed.

Lemma run_cons (l : string) (ls : list string) (s : pp_state) :
  run (l :: ls) s = run ls (step s l).
Proof. reflexivity. Qed.

Lemma mem_true (x : string) (l : list string) : mem x l = true <-> x ∈ l.
Proof.
  unfold mem. rewrite existsb_exists. split.
  - intros (y & Hy & E). apply String.eqb_eq in E. subst.
    by apply list_elem_of_In.
  - intros H. exists x. split; [by apply list_elem_of_In | apply String.eqb_refl].
Qed.

Lemma subset_true (l N : list string) :
  subset l N = true -> forall x, x ∈ l -> x ∈ N.
Proof.
  unfold subset. rewrite forallb_forall. intros H x Hx.
  apply mem_true, H. by apply list_elem_of_In.
Qed.

Lemma disjoint_true (l N : list string) :
  disjoint l N = true -> forall x, x ∈ l -> x ∉ N.
Proof.
  unfold disjoint. rewrite forallb_forall. intros H x Hx HN.
  apply list_elem_of_In, H in Hx. apply mem_true in HN. rewrite HN in Hx. done.
Qed.

Lemma touched_app (ls1 ls2 : list string) :
  touched (ls1 ++ ls2) = touched ls1 ++ touched ls2.
Proof. apply omap_app. Qed.

Lemma exec_lookup (l : line) (s : pp_state) (n : string) :
  touched_name l <> Some n ->
  pp_macros (exec l s) !! n = pp_macros s !! n.
Proof.
  intros H. destruct l; simpl in *; repeat case_match; simpl; try done.
  - apply lookup_insert_ne. congruence.
  - apply lookup_delete_ne. congruence.
Qed.

Lemma run_lookup (ls : list string) (s : pp_state) (n : string) :
  n ∉ touched ls ->
  pp_macros (run ls s) !! n = pp_macros s !! n.
Proof.
  revert s. induction ls as [|l ls IH]; intros s H; [done|].
  rewrite run_cons, IH.
  - apply exec_lookup. intros E. apply H. unfold touched. simpl.
    rewrite E. apply list_elem_of_here.
  - intros Hn. apply H. unfold touched. simpl.
    destruct (touched_name (parse_line l)); [by apply list_elem_of_further | done].
Qed.

Lemma cond_shape_app (ls1 ls2 : list string) (st : list bool) :
  cond_shape (ls1 ++ ls2) st =
  match cond_shape ls1 st with
  | Some st' => cond_shape ls2 st'
  | None => None
  end.
Proof.
  revert st. induction ls1 as [|l ls1 IH]; intros st; simpl; [done|].
  destruct (shape_step (parse_line l) st); [apply IH | done].
Qed.

Lemma balanced_app (ls1 ls2 : list string) :
  balanced ls1 = true -> balanced ls2 = true -> balanced (ls1 ++ ls2) = true.
Proof.
  unfold balanced. rewrite !bool_decide_eq_true, cond_shape_app.
  by intros -> ->.
Qed.

Lemma exec_shape (l : line) (s : pp_state) (fs base : list frame) (st st' : list bool) :
  shape_step l st = Some st' ->
  pp_conds s = fs ++ base -> map fr_else fs = st ->
  exists fs', pp_conds (exec l s) = fs' ++ base /\ map fr_else fs' = st'.
Proof.
  intros Hs Hc Hm.
  assert (Hpush : forall b, exists fs',
             pp_conds (push_cond b s) = fs' ++ base /\
             map fr_else fs' = false :: st).
  { intros b. exists (mkFrame (active s) (active s && b) false :: fs).
    simpl. by rewrite Hc, Hm. }
  destruct l; simpl in Hs; simplify_eq; simpl.
  - repeat case_match; simpl; eauto.
  - repeat case_match; simpl; eauto.
  - destruct (active s); [destruct (eval_if _ _)|]; apply Hpush.
  - apply Hpush.
  - apply Hpush.
  - destruct fs as [|f fs]; simpl in Hs; [done|].
    destruct (fr_else f) eqn:E; simplify_eq.
    rewrite Hc. simpl. rewrite E. simpl.
    exists (mkFrame (fr_parent f) (fr_cond f) true :: fs). done.
  - destruct fs as [|f fs]; simpl in Hs; simplify_eq.
    rewrite Hc. simpl. by exists fs.
  - repeat case_match; simpl; eauto.
  - repeat case_match; simpl; eauto.
Qed.

Lemma run_shape (ls : list string) (s : pp_state) (fs base : list frame) (st st' : list bool) :
  cond_shape ls st = Some st' ->
  pp_conds s = fs ++ base -> map fr_else fs = st ->
  exists fs', pp_conds (run ls s) = fs' ++ base /\ map fr_else fs' = st'.
Proof.
  revert s fs st. induction ls as [|l ls IH]; intros s fs st Hs Hc Hm; simpl in *.
  - simplify_eq. eauto.
  - destruct (shape_step (parse_line l) st) as [st1|] eqn:E; [|done].
    destruct (exec_shape _ s fs base st st1 E Hc Hm) as (fs1 & Hc1 & Hm1).
    exact (IH (step s l) fs1 st1 Hs Hc1 Hm1).
Qed.

Lemma run_balanced (ls : list string) (s : pp_state) :
  balanced ls = true -> pp_conds (run ls s) = pp_conds s.
Proof.
  unfold balanced. rewrite bool_decide_eq_true. intros H.
  destruct (run_shape ls s [] (pp_conds s) [] [] H eq_refl eq_refl) as (fs' & Hc & Hm).
  destruct fs'; [done | discriminate].
Qed.

(** *** An expansion depends only on the names it asks for *)

Lemma qrun_frame {A} (E E' : gmap string macro) (m : Q A) :
  (forall n, n ∈ qasked E' m -> E !! n = E' !! n) ->
  qrun E m = qrun E' m.
Proof.
  induction m as [a | n k IH]; intros H; simpl in *; [done|].
  rewrite (H n) by apply list_elem_of_here.
  apply IH. intros x Hx. apply H. by apply list_elem_of_further.
Qed.

Lemma expand_tokens_frame (E E' : gmap string macro) (ts : list token) :
  (forall n, n ∈ expand_asked E' ts -> E !! n = E' !! n) ->
  expand_tokens E ts = expand_tokens E' ts.
Proof.
  intros H. unfold expand_tokens. f_equal. apply qrun_frame. exact H.
Qed.

Lemma eval_if_frame (E E' : gmap string macro) (e : list token) :
  (forall n, n ∈ expand_asked E' e -> E !! n = E' !! n) ->
  eval_if E e = eval_if E' e.
Proof.
  intros H. unfold eval_if.
  rewrite (qrun_frame E E' (expand pp_fuel (lift_tokens e)) H). reflexivity.
Qed.

Lemma agree_refl (N : list string) (s : pp_state) : agree N s s.
Proof. by split. Qed.

Lemma agree_active (N : list string) (s s' : pp_state) :
  agree N s s' -> active s = active s'.
Proof. intros [H _]. unfold active. by rewrite H. Qed.

Lemma agree_lookup (N : list string) (s s' : pp_state) (n : string) :
  agree N s s' -> mem n N = true -> pp_macros s !! n = pp_macros s' !! n.
Proof. intros [_ H] Hn. by apply H, mem_true. Qed.

(** Lines that neither define a name of [N] nor leave a conditional open
    do not matter. *)
Lemma agree_skip (N : list string) (ls : list string) (s s' : pp_state) :
  agree N s s' ->
  balanced ls = true -> disjoint (touched ls) N = true ->
  agree N (run ls s) s'.
Proof.
  intros [Hc Hm] Hb Hd. split.
  - by rewrite run_balanced.
  - intros n Hn. rewrite run_lookup; [by apply Hm|].
    intros Ht. by apply (disjoint_true _ _ Hd n Ht).
Qed.

Lemma run_ok_app (out : bool) (N : list string) (ls1 ls2 : list string) (s' : pp_state) :
  run_ok out N (ls1 ++ ls2) s' = run_ok out N ls1 s' && run_ok out N ls2 (run ls1 s').
Proof.
  revert s'. induction ls1 as [|l ls1 IH]; intros s'; simpl; [done|].
  by rewrite IH, andb_assoc.
Qed.

Lemma agree_set_err (N : list string) (s s' : pp_state) :
  agree N s s' -> agree N (set_err s) (set_err s').
Proof. by intros [? ?]. Qed.

Lemma agree_set_conds (N : list string) (fs : list frame) (s s' : pp_state) :
  agree N s s' -> agree N (set_conds fs s) (set_conds fs s').
Proof. by intros [? ?]. Qed.

Lemma push_cond_agree (N : list string) (s s' : pp_state) (b b' : bool) :
  agree N s s' -> (active s' = true -> b = b') ->
  agree N (push_cond b s) (push_cond b' s').
Proof.
  intros Ha Hb. pose proof (agree_active _ _ _ Ha) as Hact.
  destruct Ha as [Hc Hm]. split; [|done].
  simpl. rewrite Hc, Hact. destruct (active s') eqn:E; [by rewrite Hb | done].
Qed.

Lemma is_defined_agree (N : list string) (s s' : pp_state) (n : string) :
  agree N s s' -> mem n N = true -> is_defined n s = is_defined n s'.
Proof. intros Ha Hn. unfold is_defined. by rewrite (agree_lookup N s s'). Qed.

Lemma exec_agree (N : list string) (l : line) (s s' : pp_state) :
  agree N s s' -> line_ok false N s' l = true ->
  agree N (exec l s) (exec l s').
Proof.
  intros Ha Hok. pose proof (agree_active _ _ _ Ha) as Hact.
  unfold line_ok in Hok. apply orb_true_iff in Hok.
  destruct l; simpl.
  - rewrite Hact. destruct (active s'); [|done].
    destruct Ha as [Hc Hm]. split; [done|]. intros x Hx. simpl.
    rewrite !lookup_insert. case_decide; [done | by apply Hm].
  - rewrite Hact. destruct (active s'); [|done].
    destruct Ha as [Hc Hm]. split; [done|]. intros x Hx. simpl.
    rewrite !lookup_delete. case_decide; [done | by apply Hm].
  - rewrite Hact. destruct (active s') eqn:E.
    + destruct Hok as [Hok|Hok]; [done|].
      rewrite (eval_if_frame (pp_macros s) (pp_macros s')).
      2:{ intros n Hn. apply Ha. by apply (subset_true _ _ Hok). }
      destruct (eval_if _ _).
      * by apply push_cond_agree.
      * by apply agree_set_err, push_cond_agree.
    + by apply push_cond_agree.
  - apply push_cond_agree; [done|]. intros E. rewrite E in Hok.
    destruct Hok as [Hok|Hok]; [done|]. by apply (is_defined_agree N).
  - apply push_cond_agree; [done|]. intros E. rewrite E in Hok.
    destruct Hok as [Hok|Hok]; [done|]. f_equal. by apply (is_defined_agree N).
  - pose proof Ha as [Hc Hm]. rewrite Hc.
    destruct (pp_conds s') as [|f fs] eqn:E'; [by apply agree_set_err|].
    destruct (fr_else f); [by apply agree_set_err | by apply agree_set_conds].
  - pose proof Ha as [Hc Hm]. rewrite Hc.
    destruct (pp_conds s') as [|f fs] eqn:E'; [by apply agree_set_err | by apply agree_set_conds].
  - rewrite Hact. destruct (active s'); [|done].
    do 2 destruct (expand_tokens _ _);
      first [by apply agree_set_err | by destruct Ha; split].
  - rewrite Hact. destruct (active s'); [by apply agree_set_err | done].
Qed.

Lemma agree_run (N : list string) (ls : list string) (s s' : pp_state) :
  agree N s s' -> run_ok false N ls s' = true ->
  agree N (run ls s) (run ls s').
Proof.
  revert s s'. induction ls as [|l ls IH]; intros s s' Ha Hok; [done|].
  simpl in Hok. apply andb_true_iff in Hok as [H1 H2].
  rewrite !run_cons. apply IH; [|done]. by apply exec_agree.
Qed.

(** *** The tokens passed on by a run of lines *)

Lemma line_ok_weaken (N : list string) (s' : pp_state) (l : line) :
  line_ok true N s' l = true -> line_ok false N s' l = true.
Proof.
  unfold line_ok. destruct (active s'); simpl; [|done]. by destruct l.
Qed.

Lemma run_ok_weaken (N : list string) (ls : list string) (s' : pp_state) :
  run_ok true N ls s' = true -> run_ok false N ls s' = true.
Proof.
  revert s'. induction ls as [|l ls IH]; intros s'; simpl; [done|].
  rewrite !andb_true_iff. intros [H1 H2]. split; [by apply line_ok_weaken | by apply IH].
Qed.

Lemma sim_set_err (N : list string) pre epre (s s' : pp_state) :
  sim N pre epre s s' -> sim N pre epre (set_err s) (set_err s').
Proof.
  intros (Ha & Ho & He). split; [by apply agree_set_err|]. simpl.
  split; [done|]. by rewrite orb_true_r.
Qed.

Lemma sim_same_out (N : list string) pre epre (s s' t t' : pp_state) :
  sim N pre epre s s' -> agree N t t' ->
  pp_out t = pp_out s -> pp_err t = pp_err s ->
  pp_out t' = pp_out s' -> pp_err t' = pp_err s' ->
  sim N pre epre t t'.
Proof.
  intros (Ha & Ho & He) Hat E1 E2 E3 E4. split; [done|].
  by rewrite E1, E2, E3, E4.
Qed.

Lemma exec_sim (N : list string) pre epre (l : line) (s s' : pp_state) :
  sim N pre epre s s' -> line_ok true N s' l = true ->
  sim N pre epre (exec l s) (exec l s').
Proof.
  intros Hs Hok. pose proof Hs as (Ha & Ho & He).
  pose proof (exec_agree N l s s' Ha (line_ok_weaken _ _ _ Hok)) as Hex.
  pose proof (agree_active _ _ _ Ha) as Hact.
  unfold line_ok in Hok. apply orb_true_iff in Hok.
  destruct l; simpl in *.
  - rewrite Hact in *. destruct (active s'); [|done]. by eapply sim_same_out.
  - rewrite Hact in *. destruct (active s'); [|done]. by eapply sim_same_out.
  - rewrite Hact in *. destruct (active s') eqn:E.
    + destruct Hok as [Hok|Hok]; [done|].
      rewrite (eval_if_frame (pp_macros s) (pp_macros s')) in *.
      2,3: intros n Hn; apply Ha; by apply (subset_true _ _ Hok).
      destruct (eval_if _ _).
      * by eapply sim_same_out.
      * split; [done|]. simpl. split; [done|]. by rewrite orb_true_r.
    + by eapply sim_same_out.
  - by eapply sim_same_out.
  - by eapply sim_same_out.
  - destruct Ha as [Hc Hm]. rewrite Hc in *.
    destruct (pp_conds s') as [|f fs] eqn:E'; [by apply sim_set_err|].
    destruct (fr_else f); [by apply sim_set_err | by eapply sim_same_out].
  - destruct Ha as [Hc Hm]. rewrite Hc in *.
    destruct (pp_conds s') as [|f fs] eqn:E'; [by apply sim_set_err | by eapply sim_same_out].
  - rewrite Hact in *. destruct (active s') eqn:E; [|done].
    destruct Hok as [Hok|Hok]; [done|]. simpl in Hok.
    rewrite (expand_tokens_frame (pp_macros s) (pp_macros s')) in *.
    2,3: intros n Hn; apply Ha; by apply (subset_true _ _ Hok).
    destruct (expand_tokens _ _); [|by apply sim_set_err].
    split; [done|]. simpl. split; [|done]. by rewrite Ho, app_assoc.
  - rewrite Hact in *. destruct (active s'); [by apply sim_set_err | done].
Qed.

Lemma sim_run (N : list string) pre epre (ls : list string) (s s' : pp_state) :
  sim N pre epre s s' -> run_ok true N ls s' = true ->
  sim N pre epre (run ls s) (run ls s').
Proof.
  revert s s'. induction ls as [|l ls IH]; intros s s' Ha Hok; [done|].
  simpl in Hok. apply andb_true_iff in Hok as [H1 H2].
  rewrite !run_cons. apply IH; [|done]. by apply exec_sim.
Qed.

Lemma agree_restart (N : list string) (s s' : pp_state) :
  agree N s s' -> agree N s (restart s').
Proof. by intros [? ?]. Qed.

(** What a run of lines passes on, computed on a state that agrees. *)
Lemma run_out (N : list string) (ls : list string) (s s' : pp_state) :
  agree N s s' -> run_ok true N ls (restart s') = true ->
  agree N (run ls s) (run ls (restart s')) /\
  pp_out (run ls s) = pp_out s ++ pp_out (run ls (restart s')) /\
  pp_err (run ls s) = pp_err s || pp_err (run ls (restart s')).
Proof.
  intros Ha Hok. apply (sim_run N (pp_out s) (pp_err s)); [|done].
  split; [by apply agree_restart|]. simpl.
  by rewrite app_nil_r, orb_false_r.
Qed.

(** *** Following the output through the sections *)

Lemma track_init (N : list string) (o : Options) :
  track N [] false (initial o) (initial o).
Proof. split; [apply agree_refl | done]. Qed.

(** A section that is kept in the slice. *)
Lemma track_keep (N : list string) (ls : list string) out err (s s' : pp_state) :
  track N out err s s' ->
  run_ok true N ls (restart s') = true ->
  track N (out ++ pp_out (slice_run ls s')) (err || pp_err (slice_run ls s'))
    (run ls s) (slice_run ls s').
Proof.
  intros (Ha & Ho & He) Hok.
  destruct (run_out N ls s s' Ha Hok) as (Ha' & Ho' & He').
  split; [done|]. by rewrite Ho', He', Ho, He.
Qed.

(** A section whose output is observed on the slice, and which is then
    dropped from it. *)
Lemma track_drop (N : list string) (ls : list string) out err (s s' : pp_state) :
  track N out err s s' ->
  run_ok true N ls (restart s') = true ->
  balanced ls = true -> disjoint (touched ls) N = true ->
  track N (out ++ pp_out (slice_run ls s')) (err || pp_err (slice_run ls s'))
    (run ls s) s'.
Proof.
  intros (Ha & Ho & He) Hok Hb Hd.
  destruct (run_out N ls s s' Ha Hok) as (Ha' & Ho' & He').
  split; [by apply agree_skip|]. by rewrite Ho', He', Ho, He.
Qed.

Lemma exec_quiet (l : line) (s : pp_state) (fs base : list frame) (st st' : list bool) :
  shape_step l st = Some st' ->
  pp_conds s = fs ++ base -> map fr_else fs = st ->
  quiet_line l = true ->
  pp_out (exec l s) = pp_out s /\ pp_err (exec l s) = pp_err s.
Proof.
  intros Hs Hc Hm Hq.
  destruct l; simpl in Hs, Hq; simplify_eq; simpl; try done.
  - by destruct (active s).
  - by destruct (active s).
  - destruct fs as [|f fs]; simpl in Hs; [done|].
    destruct (fr_else f) eqn:E; simplify_eq.
    rewrite Hc. simpl. by rewrite E.
  - destruct fs as [|f fs]; simpl in Hs; simplify_eq.
    rewrite Hc. done.
Qed.

Lemma run_quiet_shape (ls : list string) (s : pp_state) (fs base : list frame)
    (st st' : list bool) :
  cond_shape ls st = Some st' ->
  pp_conds s = fs ++ base -> map fr_else fs = st ->
  forallb (fun l => quiet_line (parse_line l)) ls = true ->
  pp_out (run ls s) = pp_out s /\ pp_err (run ls s) = pp_err s.
Proof.
  revert s fs st. induction ls as [|l ls IH]; intros s fs st Hs Hc Hm Hq; [done|].
  simpl in Hs, Hq. apply andb_true_iff in Hq as [Hq1 Hq2].
  destruct (shape_step (parse_line l) st) as [st1|] eqn:E; [|done].
  destruct (exec_shape _ s fs base st st1 E Hc Hm) as (fs1 & Hc1 & Hm1).
  destruct (exec_quiet _ s fs base st st1 E Hc Hm Hq1) as [Ho He].
  rewrite run_cons.
  destruct (IH (step s l) fs1 st1 Hs Hc1 Hm1 Hq2) as [Ho' He'].
  unfold step in *. by rewrite Ho', He', Ho, He.
Qed.

Lemma run_quiet (ls : list string) (s : pp_state) :
  quiet ls = true ->
  pp_out (run ls s) = pp_out s /\ pp_err (run ls s) = pp_err s.
Proof.
  unfold quiet, balanced. rewrite andb_true_iff, bool_decide_eq_true.
  intros [Hb Hq]. by apply (run_quiet_shape ls s [] (pp_conds s) [] []).
Qed.

(** A quiet section that does not touch [N] is dropped unseen. *)
Lemma track_quiet (N : list string) (ls : list string) out err (s s' : pp_state) :
  track N out err s s' ->
  quiet ls = true -> disjoint (touched ls) N = true ->
  track N out err (run ls s) s'.
Proof.
  intros (Ha & Ho & He) Hq Hd.
  destruct (run_quiet ls s Hq) as [Ho' He'].
  split; [|by rewrite Ho', He'].
  apply agree_skip; [done| |done].
  unfold quiet in Hq. by apply andb_true_iff in Hq as [? _].
Qed.

Lemma agreeb_true (N : list string) (s s' : pp_state) :
  agreeb N s s' = true -> agree N s s'.
Proof.
  unfold agreeb. rewrite andb_true_iff, bool_decide_eq_true, forallb_forall.
  intros [Hc Hm]. split; [done|]. intros n Hn.
  apply list_elem_of_In, Hm in Hn. by apply bool_decide_eq_true in Hn.
Qed.

Lemma agree_trans (N : list string) (s s1 s2 : pp_state) :
  agree N s s1 -> agree N s1 s2 -> agree N s s2.
Proof.
  intros [Hc Hm] [Hc' Hm']. split; [congruence|].
  intros n Hn. by rewrite Hm, Hm'.
Qed.

(** The slice may be replaced by any state that agrees with it. *)
Lemma track_swap (N : list string) out err (s s1 s2 : pp_state) :
  track N out err s s1 -> agreeb N s1 s2 = true -> track N out err s s2.
Proof.
  intros (Ha & Ho) Hb. split; [|done].
  eapply agree_trans; [done | by apply agreeb_true].
Qed.

Lemma exec_no_text (l : line) (s : pp_state) :
  is_text l = false -> pp_out (exec l s) = pp_out s.
Proof. destruct l; simpl; try done; intros _; repeat case_match; done. Qed.

Lemma run_no_text (ls : list string) (s : pp_state) :
  no_text ls = true -> pp_out (run ls s) = pp_out s.
Proof.
  revert s. induction ls as [|l ls IH]; intros s H; [done|].
  simpl in H. apply andb_true_iff in H as [H1 H2].
  rewrite run_cons, IH by done. apply exec_no_text.
  by apply negb_true_iff.
Qed.

Lemma slice_run_no_text (ls : list string) (s' : pp_state) :
  no_text ls = true -> pp_out (slice_run ls s') = [].
Proof. intros H. unfold slice_run. by rewrite run_no_text. Qed.

(** ** Tactics: walking through the sections of the header *)

(** Apply [k] to the first build-time condition in the boolean
    expression [b] that is not yet a variable. *)
Ltac with_flag b k :=
  lazymatch b with
  | negb ?x => with_flag x k
  | andb ?x ?y => first [ with_flag x k | with_flag y k ]
  | orb ?x ?y => first [ with_flag x k | with_flag y k ]
  | true => fail
  | false => fail
  | _ => tryif is_var b then fail else k b
  end.

(** Replace every build-time condition of the goal by a boolean
    variable. *)
Ltac abstract_flags :=
  repeat match goal with
         | |- context [if ?b then _ else _] =>
             with_flag b ltac:(fun a =>
               lazymatch type of a with
               | bool => let x := fresh "flag" in generalize a; intros x
               end)
         end.

(** Case analysis on the build-time conditions in the goal, one flag at
    a time. *)
Ltac case_flags :=
  abstract_flags;
  repeat match goal with
         | x : bool |- _ => destruct x
         end.

Ltac unfold_sections :=
  unfold tccdefs, predefs_head, builtin_block, builtin_table,
    fundamental_types, integer_limits, wide_char_types, stdc_c11,
    os_identity, derived_int_types, glibc_redirect, open_not_pp,
    builtin_macros, va_list_abi, va_common, alias_helpers, alias_both,
    string_builtins, maybe_redir, alloc_builtins, misc_builtins,
    undef_helpers, close_not_pp.

Ltac unfold_slices :=
  unfold va_out, strings_out, alloc_out, misc_out,
    alloc_state, table_state, head_state, sized_state, slice_run.

(** Case analysis on the size type, where the goal depends on it. *)
Ltac case_size :=
  try match goal with
      | |- context [size_model ?c] =>
          let z := fresh "z" in generalize (size_model c); intros z; destruct z
      end.

(** Decide a goal that quantifies over booleans by evaluation. *)
Ltac decide_flags :=
  repeat match goal with
         | H : ?T |- _ =>
             lazymatch T with
             | bool => fail
             | _ => clear H
             end
         end;
  repeat match goal with
         | x : bool |- _ => revert x
         end;
  lazymatch goal with
  | |- ?G => refine (bool_decide_eq_true_1 G _)
  end;
  vm_compute; reflexivity.

(** Decide a closed goal by evaluation. *)
Ltac compute_decide :=
  lazymatch goal with
  | |- ?G => refine (bool_decide_eq_true_1 G _)
  end;
  vm_compute; reflexivity.

(** A decidable fact about sections, for every configuration: the
    build-time conditions become boolean variables, and the fact is
    evaluated for all their values. *)
Ltac by_cases_compute :=
  unfold_slices; case_size; unfold size_define;
  unfold_sections; abstract_flags; decide_flags.

(** The same for every setting of the options. *)
Ltac case_options o :=
  let std := fresh "std" in
  destruct o as [std ? ? ?]; destruct std.

Ltac by_options_compute o :=
  unfold_slices;
  first [ lazymatch goal with
          | |- context [stdc_c11] => fail
          | _ => destruct o as [? ? ? ?]; by_cases_compute
          end
        | case_options o; by_cases_compute ].

(** Split a run over the whole header into runs over its sections. *)
Ltac split_runs :=
  unfold preprocess, tccdefs, predefs_head, builtin_block, builtin_table;
  rewrite ?run_app.

(** The same for [track]: the output and the error mark of every section
    are observed on the slice. *)
Ltac walk_out :=
  lazymatch goal with
  | |- track _ _ _ (run (fundamental_types ?c) (initial ?o)) _ =>
      eapply (track_swap _ _ _ _ _ (sized_state c o));
      [ eapply track_keep; [ apply track_init | ]
      | unfold sized_state, size_model, spec_data_model;
        case_options o; by_cases_compute ]
  | |- track _ _ _ (run _ _) _ =>
      first
        [ eapply track_quiet; [ | by_cases_compute | by_cases_compute ];
          walk_out
        | eapply track_drop; [ | | by_cases_compute | by_cases_compute ];
          [ walk_out | ]
        | eapply track_keep; [ walk_out | ] ]
  | |- track _ _ _ _ _ => apply track_init
  end.

(** Derive [agree N (run .. (run .. s)) ?s']: a section that does not
    touch [N] is dropped, any other section is kept and leaves the
    condition that its conditionals only ask for names of [N]. *)
Ltac walk :=
  lazymatch goal with
  | |- agree _ (run _ _) _ =>
      first
        [ eapply agree_skip; [ | by_cases_compute | by_cases_compute ]; walk
        | eapply agree_run; [ walk | ] ]
  | |- agree _ _ _ => apply agree_refl
  end.

(** ** The fundamental types *)

Lemma types_slice_agree (c : Config) (o : Options) :
  agree type_names (preprocess c o) (types_slice c o).
Proof.
  split_runs. unfold types_slice. walk.
  all: by_options_compute o.
Qed.

Lemma types_lookup (c : Config) (o : Options) (n : string) :
  mem n type_names = true ->
  predefined_macros c o !! n = pp_macros (types_slice c o) !! n.
Proof. intros H. exact (agree_lookup _ _ _ _ (types_slice_agree c o) H). Qed.

Lemma count_defines_app (n : string) (ls1 ls2 : list string) :
  count_defines n (ls1 ++ ls2) = (count_defines n ls1 + count_defines n ls2)%nat.
Proof.
  unfold count_defines, defined_names.
  by rewrite omap_app, List.filter_app, length_app.
Qed.

(** The number of [#define] lines for a name in the whole header:
    the sections that have none are set aside one by one, the others
    are counted together. *)
Ltac count_sections :=
  unfold tccdefs, predefs_head, builtin_block, builtin_table;
  rewrite ?count_defines_app;
  repeat match goal with
         | |- context [count_defines ?n ?sec] =>
             let H := fresh in
             assert (H : count_defines n sec = 0%nat) by by_cases_compute;
             rewrite H; clear H
         end;
  by_cases_compute.

(** C3: the fundamental-type macros follow the first-match decision
    table: with 4-byte pointers [__SIZE_TYPE__] is [unsigned long] on
    OpenBSD and [unsigned int] elsewhere, [__PTRDIFF_TYPE__] is the
    signed type of the same width and [__INT64_TYPE__] is [long long];
    otherwise with a 4-byte long [__SIZE_TYPE__] is [unsigned long long];
    otherwise it is [unsigned long].  Of [__ILP32__], [__LLP64__],
    [__LP64__] exactly the one of the matching branch is defined. *)
Theorem fundamental_type_decision_table (c : Config) (o : Options) :
  let M := predefined_macros c o in
  M !! "__SIZE_TYPE__" = Some (object_like (spec_size_type c)) /\
  M !! "__PTRDIFF_TYPE__" = Some (object_like (spec_ptrdiff_type c)) /\
  (forall m : data_model,
     M !! model_macro m = if decide (m = spec_data_model c) then Some one else None) /\
  (if PTR_SIZE c =? 4
   then M !! "__INT64_TYPE__" = Some (object_like "long long")
   else True).
Proof.
  simpl. split; [|split; [|split]].
  - rewrite types_lookup by reflexivity.
    unfold types_slice, spec_size_type, size_model, spec_data_model.
    by_options_compute o.
  - rewrite types_lookup by reflexivity.
    unfold types_slice, spec_ptrdiff_type, spec_data_model. by_options_compute o.
  - intros m. rewrite types_lookup by (by destruct m).
    unfold types_slice, spec_data_model.
    destruct m; simpl model_macro; by_options_compute o.
  - destruct (PTR_SIZE c =? 4) eqn:E; [|done].
    rewrite types_lookup by reflexivity. unfold types_slice, fundamental_types.
    rewrite E. by_options_compute o.
Qed.

(** C4: with 8-byte pointers and an 8-byte long the macro set has
    [__LP64__], [__SIZE_TYPE__] is [unsigned long], and [__INT64_TYPE__]
    is [long] exactly on Linux and [long long] on every other system. *)
Theorem lp64_int64_type (c : Config) (o : Options) :
  PTR_SIZE c = 8 -> LONG_SIZE c = 8 ->
  let M := predefined_macros c o in
  M !! "__LP64__" = Some one /\
  M !! "__SIZE_TYPE__" = Some (object_like "unsigned long") /\
  M !! "__INT64_TYPE__" =
    Some (object_like (if TARGETOS_Linux c then "long" else "long long")) /\
  (M !! "__INT64_TYPE__" = Some (object_like "long") <-> TARGETOS_Linux c = true).
Proof.
  intros Hp Hl. simpl.
  rewrite !types_lookup by reflexivity.
  unfold types_slice, fundamental_types. rewrite Hp, Hl.
  change (8 =? 4) with false. cbv iota.
  by_options_compute o.
Qed.

Lemma lp64_int64_type_witness :
  PTR_SIZE linux_x86_64 = 8 /\ LONG_SIZE linux_x86_64 = 8 /\
  predefined_macros linux_x86_64 default_options !! "__INT64_TYPE__" =
    Some (object_like "long").
Proof.
  split; [reflexivity|]. split; [reflexivity|].
  exact (proj1 (proj2 (proj2
    (lp64_int64_type linux_x86_64 default_options eq_refl eq_refl)))).
Defined.

(** C1, as stated, fails: on NetBSD the header leaves [__INTPTR_TYPE__]
    out (lines 140-143 are under [#ifndef TARGETOS_NetBSD]). *)
Lemma intptr_type_missing_on_netbsd :
  ~ defined_once "__INTPTR_TYPE__" netbsd_x86_64.
Proof.
  intros [H _]. vm_compute in H. discriminate.
Qed.

(** C1, amended: for every configuration [__SIZE_TYPE__] and
    [__PTRDIFF_TYPE__] are defined by exactly one line each and are in
    the macro set; [__INTPTR_TYPE__] is so on every system except NetBSD,
    where no line defines it and it is not in the macro set. *)
Theorem size_types_defined_once (c : Config) :
  defined_once "__SIZE_TYPE__" c /\
  defined_once "__PTRDIFF_TYPE__" c /\
  (if TARGETOS_NetBSD c
   then never_defined "__INTPTR_TYPE__" c
   else defined_once "__INTPTR_TYPE__" c).
Proof.
  split; [|split].
  - split; [count_sections|].
    intros o. rewrite types_lookup by reflexivity.
    unfold types_slice. by_options_compute o.
  - split; [count_sections|].
    intros o. rewrite types_lookup by reflexivity.
    unfold types_slice. by_options_compute o.
  - destruct (TARGETOS_NetBSD c) eqn:E.
    + split.
      * unfold tccdefs, predefs_head, builtin_block, builtin_table.
        rewrite ?count_defines_app. unfold derived_int_types at 1. rewrite E.
        count_sections.
      * intros o. rewrite types_lookup by reflexivity.
        unfold types_slice, derived_int_types. rewrite E.
        by_options_compute o.
    + split.
      * unfold tccdefs, predefs_head, builtin_block, builtin_table.
        rewrite ?count_defines_app. unfold derived_int_types at 1. rewrite E.
        count_sections.
      * intros o. rewrite types_lookup by reflexivity.
        unfold types_slice, derived_int_types. rewrite E.
        by_options_compute o.
Qed.

(** ** Strict C11 *)

Lemma stdc_slice_agree (c : Config) (o : Options) :
  agree stdc_names (preprocess c o) (stdc_slice c o).
Proof.
  split_runs. unfold stdc_slice. walk.
  all: by_options_compute o.
Qed.

(** C7: under strict C11 ([__STDC_VERSION__] is [201112L]) the macro set
    has [__STDC_NO_ATOMICS__], [__STDC_NO_COMPLEX__] and
    [__STDC_NO_THREADS__] defined as 1, and [__STDC_UTF_16__] and
    [__STDC_UTF_32__] defined as 1 on every target except Windows/PE,
    where they are not defined. *)
Theorem strict_c11_macros (c : Config) (o : Options) :
  language_std o = STD_C11 ->
  let M := predefined_macros c o in
  M !! "__STDC_NO_ATOMICS__" = Some one /\
  M !! "__STDC_NO_COMPLEX__" = Some one /\
  M !! "__STDC_NO_THREADS__" = Some one /\
  M !! "__STDC_UTF_16__" = (if TCC_TARGET_PE c then None else Some one) /\
  M !! "__STDC_UTF_32__" = (if TCC_TARGET_PE c then None else Some one).
Proof.
  intros Hstd. simpl. unfold predefined_macros.
  rewrite !(agree_lookup _ _ _ _ (stdc_slice_agree c o)) by reflexivity.
  unfold stdc_slice. destruct o as [std ? ? ?]; simpl in Hstd; subst std.
  by_cases_compute.
Qed.

Lemma strict_c11_macros_witness :
  language_std c11_options = STD_C11 /\
  predefined_macros linux_x86_64 c11_options !! "__STDC_NO_THREADS__" = Some one /\
  predefined_macros windows_x86_64 c11_options !! "__STDC_UTF_16__" = None.
Proof.
  split; [reflexivity|]. split.
  - exact (proj1 (proj2 (proj2 (strict_c11_macros linux_x86_64 c11_options eq_refl)))).
  - exact (proj1 (proj2 (proj2 (proj2
      (strict_c11_macros windows_x86_64 c11_options eq_refl))))).
Defined.

(** X5: without strict C11 ([__STDC_VERSION__] is [199901L]) none of
    the five macros of lines 71-79 is defined, on any target. *)
Lemma c99_macros (c : Config) (o : Options) :
  language_std o = STD_C99 ->
  Forall (fun n => predefined_macros c o !! n = None)
    [ "__STDC_NO_ATOMICS__"; "__STDC_NO_COMPLEX__"; "__STDC_NO_THREADS__";
      "__STDC_UTF_16__"; "__STDC_UTF_32__" ].
Proof.
  intros Hstd. unfold predefined_macros.
  repeat (constructor;
          [rewrite (agree_lookup _ _ _ _ (stdc_slice_agree c o)) by reflexivity|]);
    [..|constructor];
    unfold stdc_slice; destruct o as [std ? ? ?]; simpl in Hstd; subst std;
    by_cases_compute.
Qed.

(** ** The compiler version shown to the system headers *)

Lemma gnuc_slice_agree (c : Config) (o : Options) :
  agree (gnuc_names ++ ["__TCC_PP__"]) (preprocess c o) (gnuc_slice c o).
Proof.
  split_runs. unfold gnuc_slice. walk.
  all: by_options_compute o.
Qed.

(** C8, as stated, fails: on Linux the header defines none of
    [__GNUC__], [__GNUC_MINOR__], [__GNUC_PATCHLEVEL__]. *)
Lemma no_gnuc_version_on_linux : ~ spoofs_gnuc_version linux_x86_64.
Proof.
  intros H. specialize (H default_options).
  apply Forall_cons in H as [[m Hm] _].
  vm_compute in Hm. discriminate.
Qed.

(** C8, amended: the values of [__GNUC__], [__GNUC_MINOR__] and
    [__GNUC_PATCHLEVEL__] depend on the operating-system branch only:
    9, 3, 0 on FreeBSD; 4, 1, 0 on NetBSD; [__GNUC__] alone, as 4, on
    OpenBSD and Mach-O; none of the three on Windows/PE, the FreeBSD
    kernel, Android and Linux. *)
Theorem gnuc_version_by_os (c : Config) (o : Options) :
  map (fun n => predefined_macros c o !! n) gnuc_names =
  map (option_map object_like) (gnuc_version (os_family c)).
Proof.
  unfold predefined_macros, gnuc_names; simpl map at 1.
  rewrite !(agree_lookup _ _ _ _ (gnuc_slice_agree c o)) by reflexivity.
  unfold gnuc_slice, os_family. by_options_compute o.
Qed.

(** ** The helper macros of the builtin block *)

Lemma helper_slice_agree (c : Config) (o : Options) :
  agree (helper_macros ++ option_names) (preprocess c o) (helper_slice c o).
Proof.
  split_runs. unfold helper_slice. walk.
  all: by_options_compute o.
Qed.

(** C10: for every configuration the six [#undef] lines for
    [__BUILTINBC], [__BUILTIN], [__BOUND], [__BOTH], [__MAYBE_REDIR] and
    [__RENAME] come right after the builtin declaration table, and none
    of the six names is in the macro set once the text is read. *)
Theorem helper_macros_undefined (c : Config) (o : Options) :
  (exists before,
     tccdefs c = before ++ builtin_table c ++ map undef_line helper_macros
                 ++ close_not_pp) /\
  Forall (fun h => predefined_macros c o !! h = None) helper_macros.
Proof.
  split.
  - exists (predefs_head c ++ alias_helpers ++ alias_both c).
    unfold tccdefs, builtin_block.
    change (map undef_line helper_macros) with undef_helpers.
    by rewrite <- !app_assoc.
  - unfold predefined_macros.
    repeat (constructor;
            [rewrite (agree_lookup _ _ _ _ (helper_slice_agree c o)) by reflexivity|]);
      [..|constructor];
      unfold helper_slice; by_options_compute o.
Qed.

(** ** The declarations of the header *)

(** The declarations that a translation unit starts with are those of
    the variadic-argument block followed by those of the builtin table;
    the whole text is read without error and leaves no conditional
    open. *)
Lemma decls_split (c : Config) (o : Options) :
  predefined_decls c o =
    va_out c o ++ strings_out c o ++ alloc_out c o ++ misc_out c o /\
  pp_err (preprocess c o) = false /\
  pp_conds (preprocess c o) = [].
Proof.
  eassert (H : track decl_names _ _ (preprocess c o) _).
  { split_runs. walk_out. all: by_options_compute o. }
  destruct H as ((Hc & _) & Ho & He).
  split; [|split].
  - unfold predefined_decls. rewrite Ho.
    repeat match goal with
           | |- context [pp_out (slice_run ?ls ?s)] =>
               rewrite (slice_run_no_text ls s) by by_cases_compute
           end.
    rewrite ?app_nil_r, app_nil_l, <- !app_assoc.
    unfold va_out, strings_out, alloc_out, misc_out,
      alloc_state, table_state, head_state.
    reflexivity.
  - rewrite He.
    repeat match goal with
           | |- context [pp_err (slice_run ?ls ?s)] =>
               let E := fresh in
               assert (E : pp_err (slice_run ls s) = false)
                 by by_options_compute o;
               rewrite E; clear E
           end.
    reflexivity.
  - rewrite Hc. by_options_compute o.
Qed.

(** What the lines in front of the builtin block pass on. *)
Lemma head_out (c : Config) (o : Options) :
  pp_out (run (predefs_head c) (initial o)) = va_out c o.
Proof.
  eassert (H : track decl_names _ _ (run (predefs_head c) (initial o)) _).
  { unfold predefs_head. rewrite ?run_app. walk_out. all: by_options_compute o. }
  destruct H as (_ & Ho & _). rewrite Ho.
  repeat match goal with
         | |- context [pp_out (slice_run ?ls ?s)] =>
             rewrite (slice_run_no_text ls s) by by_cases_compute
         end.
  rewrite ?app_nil_r, app_nil_l. unfold va_out, head_state. reflexivity.
Qed.

Lemma existsb_names_app (l1 l2 : list token) :
  existsb names_malloc (l1 ++ l2) = false <->
  existsb names_malloc l1 = false /\ existsb names_malloc l2 = false.
Proof. by rewrite existsb_app, orb_false_iff. Qed.

(** C5, as stated, fails: on Linux/x86_64 with bounds checking the
    instrumented symbol [__bound_malloc] is not in the declarations at
    all ([__MAYBE_REDIR] is [__BUILTIN] there, line 279). *)
Lemma malloc_not_bound_on_linux :
  ~ declares_malloc_as (malloc_bound_pair linux_x86_64 bounds_options)
      (predefined_decls linux_x86_64 bounds_options).
Proof.
  intros (pre & post & Heq & _).
  assert (Hin : TStr "__bound_malloc" ∈ predefined_decls linux_x86_64 bounds_options).
  { rewrite Heq. apply elem_of_app. right. apply elem_of_app. left.
    compute_decide. }
  revert Hin. compute_decide.
Qed.

(** C5, amended: on a target that is not Windows/PE, when the builtin
    block is read, [malloc] is declared as the pair [__builtin_malloc],
    [malloc] bound to [__bound_malloc] exactly when bounds checking is
    on and the system is neither Linux nor Mach-O; in every other case
    it is declared once, as [__builtin_malloc] bound to plain [malloc].
    No other declaration names [malloc] or [__builtin_malloc]. *)
Theorem malloc_declarations (c : Config) (o : Options) :
  TCC_TARGET_PE c = false -> preprocess_only o = false ->
  declares_malloc_as (malloc_decls c o) (predefined_decls c o).
Proof.
  intros Hpe Hpp.
  destruct (decls_split c o) as (Hd & _). rewrite Hd.
  exists (va_out c o ++ strings_out c o),
    (drop (length (malloc_decls c o)) (alloc_out c o) ++ misc_out c o).
  assert (Ht : take (length (malloc_decls c o)) (alloc_out c o) = malloc_decls c o).
  { unfold malloc_decls, malloc_bound_pair, malloc_plain, malloc_decl,
      spec_size_type, asm_symbol.
    destruct o as [std pp bc lu]; simpl in Hpp; subst pp; simpl.
    unfold_slices. unfold_sections. rewrite Hpe. by_cases_compute. }
  split; [|split].
  - rewrite <- !app_assoc. do 2 f_equal. rewrite !app_assoc. f_equal.
    rewrite <- Ht at 1. symmetry. apply take_drop.
  - apply existsb_names_app. split; by_options_compute o.
  - apply existsb_names_app. split.
    + unfold malloc_decls, malloc_bound_pair, malloc_plain, malloc_decl,
        spec_size_type, asm_symbol.
      destruct o as [std pp bc lu]; simpl in Hpp; subst pp; simpl.
      unfold_slices. unfold_sections. rewrite Hpe. by_cases_compute.
    + by_options_compute o.
Qed.

Lemma malloc_declarations_witness :
  TCC_TARGET_PE freebsd_x86_64 = false /\
  preprocess_only bounds_options = false /\
  declares_malloc_as (malloc_bound_pair freebsd_x86_64 bounds_options)
    (predefined_decls freebsd_x86_64 bounds_options).
Proof.
  split; [reflexivity|]. split; [reflexivity|].
  exact (malloc_declarations freebsd_x86_64 bounds_options eq_refl eq_refl).
Defined.

(** C9: on a Windows/PE target without bounds checking the builtin block
    passes no declaration on: the declarations of the translation unit
    are those in front of the block, the text is read without error,
    and no token of the declarations names an entry point of the table,
    under its own name or under its [__builtin_] name. *)
Theorem pe_no_builtin_declarations (c : Config) (o : Options) :
  TCC_TARGET_PE c = true -> bounds_checking o = false ->
  predefined_decls c o = pp_out (run (predefs_head c) (initial o)) /\
  pp_err (preprocess c o) = false /\
  existsb names_builtin (predefined_decls c o) = false.
Proof.
  intros Hpe Hbc.
  destruct (decls_split c o) as (Hd & He & _).
  assert (Hs1 : strings_out c o = []).
  { destruct o as [std pp bc lu]; simpl in Hbc; subst bc.
    unfold_slices. unfold_sections. rewrite Hpe. by_cases_compute. }
  assert (Hs2 : alloc_out c o = []).
  { destruct o as [std pp bc lu]; simpl in Hbc; subst bc.
    unfold_slices. unfold_sections. rewrite Hpe. by_cases_compute. }
  assert (Hs3 : misc_out c o = []).
  { destruct o as [std pp bc lu]; simpl in Hbc; subst bc.
    unfold_slices. unfold_sections. rewrite Hpe. by_cases_compute. }
  rewrite Hs1, Hs2, Hs3, !app_nil_r in Hd.
  split; [|split; [done|]].
  - by rewrite head_out.
  - rewrite Hd. destruct o as [std pp bc lu].
    unfold_slices. unfold_sections. rewrite Hpe. by_cases_compute.
Qed.

Lemma pe_no_builtin_declarations_witness :
  TCC_TARGET_PE windows_x86_64 = true /\
  bounds_checking default_options = false /\
  predefined_decls windows_x86_64 default_options =
    pp_out (run (predefs_head windows_x86_64) (initial default_options)).
Proof.
  split; [reflexivity|]. split; [reflexivity|].
  exact (proj1 (pe_no_builtin_declarations windows_x86_64 default_options
                  eq_refl eq_refl)).
Defined.

(** ** Variadic arguments on 64-bit Windows *)

Lemma small_power_of_two (n : Z) :
  1 <= n <= 8 -> (power_of_two n <-> n = 1 \/ n = 2 \/ n = 4 \/ n = 8).
Proof.
  intros Hn. split.
  - intros (k & Hk & ->).
    assert (k < 4).
    { destruct (Z_lt_le_dec k 4) as [|Hge]; [done|]. exfalso.
      pose proof (Z.pow_le_mono_r 2 4 k ltac:(lia) Hge) as Hp.
      change (2 ^ 4) with 16 in Hp. lia. }
    assert (Hc : k = 0 \/ k = 1 \/ k = 2 \/ k = 3) by lia.
    destruct Hc as [-> | [-> | [-> | ->]]]; vm_compute; tauto.
  - intros [-> | [-> | [-> | ->]]];
      [exists 0 | exists 1 | exists 2 | exists 3]; split; (lia || reflexivity).
Qed.

Lemma win64_by_reference_spec (size : Z) :
  1 <= size < 2 ^ 64 ->
  (win64_by_reference size = true <-> 8 < size \/ ~ power_of_two size).
Proof.
  intros Hs. unfold win64_by_reference.
  destruct (Z_lt_le_dec 8 size) as [Hgt | Hle].
  - assert ((size >? 8) = true) as -> by lia. simpl. tauto.
  - assert ((size >? 8) = false) as -> by lia. simpl.
    rewrite (small_power_of_two size) by lia.
    assert (Hc : size = 1 \/ size = 2 \/ size = 3 \/ size = 4 \/
                 size = 5 \/ size = 6 \/ size = 7 \/ size = 8) by lia.
    destruct Hc as [-> | [-> | [-> | [-> | [-> | [-> | [-> | ->]]]]]]];
      match goal with
      | |- ?b = true <-> _ =>
          let v := eval vm_compute in b in change b with v
      end;
      (split; [intros H; first [discriminate | lia] | intros H; first [reflexivity | lia]]).
Qed.

Lemma win64_next_slot_spec (ap : Z) :
  0 <= ap < 2 ^ 64 -> win64_next_slot ap = (wrap64 (ap + 8), ap).
Proof.
  intros Ha. unfold win64_next_slot, wrap64. f_equal.
  rewrite Zminus_mod_idemp_l. replace (ap + 8 - 8) with ap by lia.
  by apply Z.mod_small.
Qed.

Lemma classic_small (size : Z) :
  1 <= size <= 8 ->
  (size = 1 \/ size = 2 \/ size = 4 \/ size = 8) \/
  (size = 3 \/ size = 5 \/ size = 6 \/ size = 7).
Proof. lia. Qed.

Lemma zero_no_power_of_two : ~ power_of_two 0.
Proof.
  intros (k & Hk & H). pose proof (Z.pow_pos_nonneg 2 k ltac:(lia) Hk). lia.
Qed.

(** The same for every size: a size of 0 passes the test of line 194 as
    the powers of two do. *)
Lemma win64_by_reference_full (size : Z) :
  0 <= size < 2 ^ 64 ->
  (win64_by_reference size = true <->
   8 < size \/ (size <> 0 /\ ~ power_of_two size)).
Proof.
  intros Hs. destruct (Z.eq_dec size 0) as [-> | Hn].
  - split; [intros H; vm_compute in H; discriminate | intros [H | [H _]]; lia].
  - rewrite (win64_by_reference_spec size) by lia. tauto.
Qed.

(** C6, as stated, fails: a type of size 0 is read directly, although 0
    is no power of two.  The test of line 194,
    [sizeof(t)>8||(sizeof(t)&(sizeof(t)-1))], is 0 for [sizeof(t)] 0. *)
Lemma win64_zero_size_read_directly :
  ~ by_reference_unless_small_power_of_two 4096 0.
Proof.
  intros [_ H]. specialize (H (or_intror zero_no_power_of_two)).
  vm_compute in H. discriminate.
Qed.

(** C6, amended: on the x86_64 Windows/PE target [__builtin_va_list] is
    declared as [char*] and [__builtin_va_arg] is the macro of line 194;
    that macro moves [ap] forward by 8 bytes whatever the type, reads
    the argument at the old [ap], and reads it through one more pointer
    exactly when the size of the type is above 8, or is neither 0 nor a
    power of two; sizes 0, 1, 2, 4 and 8 are read directly. *)
Theorem win64_va_arg_abi (c : Config) (o : Options) (ap size : Z) :
  TCC_TARGET_X86_64 c = true -> TCC_TARGET_PE c = true ->
  preprocess_only o = false ->
  0 <= ap < 2 ^ 64 -> 0 <= size < 2 ^ 64 ->
  (exists rest,
     predefined_decls c o = tokens "typedef char*__builtin_va_list;" ++ rest) /\
  predefined_macros c o !! "__builtin_va_arg" =
    Some (mkMacro (Some ["ap"; "t"]) (tokens win64_va_arg_body)) /\
  fst (win64_va_arg ap size) = wrap64 (ap + 8) /\
  (snd (win64_va_arg ap size) = ReadThrough ap \/
   snd (win64_va_arg ap size) = ReadAt ap) /\
  (snd (win64_va_arg ap size) = ReadThrough ap <->
   8 < size \/ (size <> 0 /\ ~ power_of_two size)) /\
  (snd (win64_va_arg ap size) = ReadAt ap <->
   size = 0 \/ size = 1 \/ size = 2 \/ size = 4 \/ size = 8).
Proof.
  intros Hx Hpe Hpp Hap Hsz.
  split; [|split].
  - destruct (decls_split c o) as (Hd & _). rewrite Hd.
    exists (strings_out c o ++ alloc_out c o ++ misc_out c o). f_equal.
    destruct o as [std pp bc lu]; simpl in Hpp; subst pp.
    unfold_slices. unfold_sections. rewrite Hx, Hpe. by_cases_compute.
  - unfold predefined_macros.
    eassert (Ha : agree ["__builtin_va_arg"; "__TCC_PP__"] (preprocess c o) _).
    { split_runs. walk. all: by_options_compute o. }
    rewrite (agree_lookup _ _ _ _ Ha) by reflexivity. clear Ha.
    destruct o as [std pp bc lu]; simpl in Hpp; subst pp.
    unfold_sections. rewrite Hx, Hpe. by_cases_compute.
  - pose proof (win64_by_reference_full size Hsz) as Hr.
    assert (Hsmall : size <= 8 ->
              (size <> 0 /\ ~ power_of_two size) \/
              (size = 0 \/ size = 1 \/ size = 2 \/ size = 4 \/ size = 8)).
    { intros Hle. destruct (Z.eq_dec size 0) as [-> | Hn]; [tauto|].
      pose proof (small_power_of_two size ltac:(lia)) as Hp.
      destruct (classic_small size ltac:(lia)) as [H | H]; [right; lia|].
      left. split; [done|]. rewrite Hp. lia. }
    assert (Hexcl : size = 0 \/ size = 1 \/ size = 2 \/ size = 4 \/ size = 8 ->
              ~ (8 < size \/ (size <> 0 /\ ~ power_of_two size))).
    { intros Hc [Hgt | [Hn Hnp]]; [lia|].
      apply Hnp. apply (small_power_of_two size); lia. }
    unfold win64_va_arg. rewrite (win64_next_slot_spec ap Hap). simpl.
    split; [done|].
    destruct (win64_by_reference size) eqn:Eb.
    + assert (Ht : 8 < size \/ size <> 0 /\ ~ power_of_two size)
        by (by apply Hr).
      split; [by left|]. split; [by split|].
      split; [done | intros Hc; by destruct (Hexcl Hc)].
    + assert (Hf : ~ (8 < size \/ size <> 0 /\ ~ power_of_two size)).
      { intros H. apply Hr in H. done. }
      split; [by right|]. split; [split; [done | intros H; by destruct (Hf H)]|].
      split; [intros _ | done].
      destruct (Z_lt_le_dec 8 size) as [Hgt | Hle];
        [exfalso; apply Hf; by left|].
      destruct (Hsmall Hle) as [H | H]; [exfalso; apply Hf; by right | exact H].
Qed.

Lemma win64_va_arg_abi_witness :
  TCC_TARGET_X86_64 windows_x86_64 = true /\
  TCC_TARGET_PE windows_x86_64 = true /\
  preprocess_only default_options = false /\
  0 <= 4096 < 2 ^ 64 /\ 0 <= 12 < 2 ^ 64 /\
  fst (win64_va_arg 4096 12) = wrap64 (4096 + 8) /\
  (snd (win64_va_arg 4096 12) = ReadThrough 4096 <->
   8 < 12 \/ (12 <> 0 /\ ~ power_of_two 12)).
Proof.
  split; [reflexivity|]. split; [reflexivity|]. split; [reflexivity|].
  split; [lia|]. split; [lia|].
  pose proof (win64_va_arg_abi windows_x86_64 default_options 4096 12
                eq_refl eq_refl eq_refl ltac:(lia) ltac:(lia)) as H.
  exact (conj (proj1 (proj2 (proj2 H)))
              (proj1 (proj2 (proj2 (proj2 (proj2 H)))))).
Defined.

(** ** The order of definitions *)

Lemma mem_app (x : string) (a b : list string) :
  mem x (a ++ b) = mem x a || mem x b.
Proof. apply existsb_app. Qed.

Lemma mem_filter (x : string) (f : string -> bool) (D : list string) :
  mem x (List.filter f D) = f x && mem x D.
Proof.
  induction D as [|y D IH]; simpl; [by rewrite andb_false_r|].
  destruct (f y) eqn:Ey; simpl; rewrite IH.
  - destruct (String.eqb x y) eqn:E; simpl; [|done].
    apply String.eqb_eq in E. subst. by rewrite Ey.
  - destruct (String.eqb x y) eqn:E; simpl; [|done].
    apply String.eqb_eq in E. subst. by rewrite Ey.
Qed.

Lemma covers_refl (D : list string) : covers D D.
Proof. by intros x. Qed.

Lemma covers_nil (D : list string) : covers [] D.
Proof. by intros x. Qed.

Lemma subset_covers (K D : list string) : subset K D = true -> covers K D.
Proof.
  intros H x Hx. apply mem_true. apply (subset_true _ _ H). by apply mem_true.
Qed.

Lemma covers_trans (A B C : list string) : covers A B -> covers B C -> covers A C.
Proof. intros H1 H2 x Hx. by apply H2, H1. Qed.

Lemma defined_after_mono (l : line) (D D' : list string) :
  covers D D' -> covers (defined_after l D) (defined_after l D').
Proof.
  intros H x. destruct l; unfold defined_after, line_defines;
    rewrite ?mem_app, ?mem_filter, ?orb_true_iff, ?andb_true_iff.
  all: try (intros [?|?]; [by left | right; by apply H]).
  intros [? ?]. split; [done | by apply H].
Qed.

Lemma defined_by_app (a b D : list string) :
  defined_by (a ++ b) D = defined_by b (defined_by a D).
Proof. apply fold_left_app. Qed.

Lemma defined_by_mono (ls D D' : list string) :
  covers D D' -> covers (defined_by ls D) (defined_by ls D').
Proof.
  revert D D'. induction ls as [|l ls IH]; intros D D' H; [done|].
  apply IH. by apply defined_after_mono.
Qed.

Lemma text_defines_app (a b : list string) :
  text_defines (a ++ b) = text_defines a ++ text_defines b.
Proof. apply flat_map_app. Qed.

Lemma subset_app (a b N : list string) :
  subset (a ++ b) N = subset a N && subset b N.
Proof. apply forallb_app. Qed.

Lemma scan_app (N D a b : list string) :
  scan N D (a ++ b) = scan N D a && scan N (defined_by a D) b.
Proof.
  revert D. induction a as [|l a IH]; intros D; [done|].
  simpl. by rewrite IH, andb_assoc.
Qed.

Lemma scan_mono_scope (N D D' ls : list string) :
  covers D D' -> scan N D ls = true -> scan N D' ls = true.
Proof.
  revert D D'. induction ls as [|l ls IH]; intros D D' H; [done|].
  simpl. rewrite !andb_true_iff, !forallb_forall. intros [H1 H2]. split.
  - intros x Hx. specialize (H1 x Hx).
    destruct (mem x N); simpl in *; [by apply H | done].
  - eapply IH; [|exact H2]. by apply defined_after_mono.
Qed.

Lemma scan_mono_names (N N' D ls : list string) :
  covers N' N -> scan N D ls = true -> scan N' D ls = true.
Proof.
  intros H. revert D. induction ls as [|l ls IH]; intros D; [done|].
  simpl. rewrite !andb_true_iff, !forallb_forall. intros [H1 H2]. split.
  - intros x Hx. specialize (H1 x Hx).
    destruct (mem x N') eqn:E; simpl; [|done].
    by rewrite (H x E) in H1.
  - by apply IH.
Qed.

(** What the check establishes. *)
Lemma scan_sound (N D ls : list string) (i : nat) (l x : string) :
  scan N D ls = true ->
  ls !! i = Some l ->
  mem x (line_uses (parse_line l)) = true ->
  mem x N = true ->
  mem x (defined_by (take i ls) D) = true.
Proof.
  revert D i. induction ls as [|l' ls IH]; intros D i Hs Hi Hx HN; [done|].
  simpl in Hs. apply andb_true_iff in Hs as [H1 H2].
  destruct i as [|i]; simpl in *.
  - injection Hi as ->. rewrite forallb_forall in H1.
    apply mem_true, list_elem_of_In in Hx. specialize (H1 x Hx).
    by rewrite HN in H1.
  - by apply IH.
Qed.

(** One section of the header: checked from the names [K] known to be
    in scope before it, it leaves the names [K'] in scope. *)
Lemma scan_section (N K K' sec rest D : list string) :
  covers K D ->
  scan N K sec = true ->
  subset K' (defined_by sec K) = true ->
  (forall D', covers K' D' -> scan N D' rest = true) ->
  scan N D (sec ++ rest) = true.
Proof.
  intros HK Hs HK' Hrest. rewrite scan_app. apply andb_true_iff. split.
  - by apply (scan_mono_scope N K D).
  - apply Hrest. eapply covers_trans; [by apply subset_covers|].
    by apply defined_by_mono.
Qed.

Ltac scan_next K' :=
  lazymatch goal with
  | H : covers ?K ?D |- scan ?N ?D (?sec ++ ?rest) = true =>
      apply (scan_section N K K' sec rest D H);
      [ by_cases_compute | by_cases_compute | clear D H; intros D H ]
  end.

Ltac flatten_sections :=
  unfold tccdefs, predefs_head, builtin_block, builtin_table;
  rewrite <- ?app_assoc.

(** No name the header can define is used before its definition. *)
Lemma header_scan (c : Config) : scan header_names [] (tccdefs c) = true.
Proof.
  pose proof (covers_nil []) as H. revert H. generalize (@nil string) at 2 3.
  intros D H. flatten_sections.
  let K1 := constr:(["__SIZE_TYPE__"; "__PTRDIFF_TYPE__"]) in
  let K2 := constr:(["__RENAME"; "__BUILTINBC"; "__BOUND"] ++ K1) in
  let K3 := constr:(["__BOTH"; "__BUILTIN"] ++ K2) in
  let K4 := constr:(["__MAYBE_REDIR"] ++ K3) in
  do 11 scan_next K1;
  scan_next K2; scan_next K3; scan_next K3; scan_next K4;
  scan_next K4; scan_next K4; scan_next (@nil string).
  apply (scan_mono_scope header_names []); [done|]. by_cases_compute.
Qed.

Lemma header_names_complete (c : Config) :
  subset (text_defines (tccdefs c)) header_names = true.
Proof.
  flatten_sections. rewrite !text_defines_app, !subset_app.
  repeat (apply andb_true_iff; split); by_cases_compute.
Qed.

(** C2, as stated, fails: on RISC-V the [__builtin_va_arg] macro of
    line 221 casts to the type name [va_list], and no line of the text
    defines [va_list], before or after. *)
Lemma va_list_undefined_on_riscv64 :
  ~ names_defined_before_use ["va_list"] (tccdefs linux_riscv64).
Proof.
  intros H.
  assert (E : tccdefs linux_riscv64 !! 33%nat
              = Some (nth 33 (tccdefs linux_riscv64) ""))
    by (vm_compute; reflexivity).
  specialize (H _ _ "va_list" E). vm_compute in H.
  specialize (H eq_refl eq_refl). discriminate.
Qed.

(** C2, amended: for every configuration there is no forward reference
    among the names the text defines.  Whenever line [i] of the text
    uses, in the body of a definition or in a declaration, a name that
    some line of the same text defines (a macro, the type
    [__builtin_va_list], the function [__va_arg]), the lines before [i]
    have defined that name. *)
Theorem no_forward_references (c : Config) (i : nat) (l x : string) :
  tccdefs c !! i = Some l ->
  mem x (line_uses (parse_line l)) = true ->
  mem x (text_defines (tccdefs c)) = true ->
  mem x (defined_by (take i (tccdefs c)) []) = true.
Proof.
  intros Hi Hx HN. apply (scan_sound (text_defines (tccdefs c)) _ _ _ l); try done.
  apply (scan_mono_names header_names).
  - apply subset_covers, header_names_complete.
  - apply header_scan.
Qed.

Lemma no_forward_references_witness :
  tccdefs linux_x86_64 !! 60%nat
    = Some (c_literal "__BOTH(void*,memcpy,(void*,const void*,__SIZE_TYPE__))\n") /\
  mem "__SIZE_TYPE__"
    (line_uses (parse_line
       (c_literal "__BOTH(void*,memcpy,(void*,const void*,__SIZE_TYPE__))\n")))
    = true /\
  mem "__SIZE_TYPE__" (text_defines (tccdefs linux_x86_64)) = true /\
  mem "__SIZE_TYPE__" (defined_by (take 60 (tccdefs linux_x86_64)) []) = true.
Proof.
  assert (H1 : tccdefs linux_x86_64 !! 60%nat
               = Some (c_literal "__BOTH(void*,memcpy,(void*,const void*,__SIZE_TYPE__))\n"))
    by (vm_compute; reflexivity).
  assert (H2 : mem "__SIZE_TYPE__"
                 (line_uses (parse_line
                    (c_literal "__BOTH(void*,memcpy,(void*,const void*,__SIZE_TYPE__))\n")))
               = true)
    by (vm_compute; reflexivity).
  assert (H3 : mem "__SIZE_TYPE__" (text_defines (tccdefs linux_x86_64)) = true)
    by (vm_compute; reflexivity).
  split; [exact H1|]. split; [exact H2|]. split; [exact H3|].
  exact (no_forward_references linux_x86_64 60 _ "__SIZE_TYPE__" H1 H2 H3).
Defined.

(** * Further properties of the header *)

(** ** The identity of the operating system *)

(** The options other than preprocessing-only do not matter to the
    names they do not define. *)
Lemma initial_plain (N : list string) (o : Options) :
  disjoint N set_by_options = true ->
  agree N (initial o) (initial (plain_options (preprocess_only o))).
Proof.
  intros Hd. split; [done|]. intros n Hn.
  pose proof (disjoint_true _ _ Hd n Hn) as Hout.
  assert (H1 : n <> "__STDC_VERSION__") by (intros ->; apply Hout; set_solver).
  assert (H2 : n <> "__BOUNDS_CHECKING_ON") by (intros ->; apply Hout; set_solver).
  assert (H3 : n <> "__leading_underscore") by (intros ->; apply Hout; set_solver).
  destruct o as [std pp bc lu]. unfold initial, option_macros, define_if; simpl.
  destruct bc, lu, pp; rewrite ?lookup_insert_ne by done;
    destruct (decide (n = "__TCC_PP__")) as [-> | H4];
    rewrite ?lookup_insert_eq, ?lookup_insert_ne by done; done.
Qed.

(** The walk through the header from a state that agrees with the
    initial one. *)
Ltac walk_from H :=
  lazymatch goal with
  | |- agree _ (run _ _) _ =>
      first
        [ eapply agree_skip; [ | by_cases_compute | by_cases_compute ];
          walk_from H
        | eapply agree_run; [ walk_from H | ] ]
  | |- agree _ _ _ => exact H
  end.

Ltac by_mode_compute o :=
  generalize (preprocess_only o); clear o; intros ?; by_cases_compute.

Lemma os_slice_agree (c : Config) (o : Options) :
  agree os_names (preprocess c o) (os_slice c (preprocess_only o)).
Proof.
  pose proof (initial_plain os_names o eq_refl) as H.
  split_runs. unfold os_slice. walk_from H.
  all: clear H; by_mode_compute o.
Qed.

Lemma os_slice_check (c : Config) (pp : bool) :
  os_check (pp_macros (os_slice c pp)) (os_family c) = true.
Proof. unfold os_slice, os_family. by_cases_compute. Qed.

(** X6: The macro set shows one operating system: the macros that only one
    branch of lines 81-138 defines are defined exactly when that branch
    is the first one whose condition holds, in the order Windows/PE,
    FreeBSD, FreeBSD kernel, NetBSD, OpenBSD, Mach-O, Android; the FreeBSD
    kernel and Linux have no macro of their own. *)
Theorem os_identity_exclusive (c : Config) (o : Options) (b : os_branch) :
  Forall (fun n => is_Some (predefined_macros c o !! n) <-> os_family c = b)
    (os_marker b).
Proof.
  apply Forall_forall. intros n Hn.
  assert (HN : mem n os_names = true).
  { apply mem_true. unfold os_names. apply elem_of_app. left.
    apply list_elem_of_In, in_flat_map. exists b. split.
    - destruct b; simpl; tauto.
    - by apply list_elem_of_In. }
  unfold predefined_macros.
  rewrite (agree_lookup _ _ _ _ (os_slice_agree c o) HN).
  pose proof (os_slice_check c (preprocess_only o)) as Hc.
  unfold os_check in Hc. rewrite forallb_forall in Hc.
  assert (Hb : In b os_branches) by (destruct b; simpl; tauto).
  specialize (Hc b Hb). rewrite forallb_forall in Hc.
  specialize (Hc n (proj1 (list_elem_of_In _ _) Hn)).
  apply eqb_prop in Hc.
  rewrite <- (bool_decide_spec (is_Some _)), Hc, bool_decide_spec.
  split; intros H; by subst.
Qed.

(** X7: On FreeBSD with pointers of 4 or 8 bytes [__SIZEOF_SIZE_T__] and
    [__SIZEOF_PTRDIFF_T__] are the pointer size, and [__int128_t] is
    defined with 8-byte pointers only. *)
Theorem freebsd_sizes (c : Config) (o : Options) :
  TCC_TARGET_PE c = false -> TARGETOS_FreeBSD c = true ->
  PTR_SIZE c = 4 \/ PTR_SIZE c = 8 ->
  let M := predefined_macros c o in
  macro_value M "__SIZEOF_SIZE_T__" = Some (PTR_SIZE c) /\
  macro_value M "__SIZEOF_PTRDIFF_T__" = Some (PTR_SIZE c) /\
  (is_Some (M !! "__int128_t") <-> PTR_SIZE c = 8).
Proof.
  intros Hpe Hf Hp. simpl. unfold macro_value, predefined_macros.
  rewrite !(agree_lookup _ _ _ _ (os_slice_agree c o)) by reflexivity.
  unfold os_slice, os_identity. rewrite Hpe, Hf. cbv iota.
  generalize (preprocess_only o). intros pp.
  destruct Hp as [Hp | Hp]; rewrite Hp.
  - change (4 =? 8) with false. cbv iota. clear. by_cases_compute.
  - change (8 =? 8) with true. cbv iota. clear. by_cases_compute.
Qed.

Lemma freebsd_sizes_witness :
  TCC_TARGET_PE freebsd_x86_64 = false /\
  TARGETOS_FreeBSD freebsd_x86_64 = true /\
  (PTR_SIZE freebsd_x86_64 = 4 \/ PTR_SIZE freebsd_x86_64 = 8) /\
  macro_value (predefined_macros freebsd_x86_64 default_options)
    "__SIZEOF_SIZE_T__" = Some (PTR_SIZE freebsd_x86_64).
Proof.
  split; [reflexivity|]. split; [reflexivity|]. split; [right; reflexivity|].
  exact (proj1 (freebsd_sizes freebsd_x86_64 default_options eq_refl eq_refl
                  (or_intror eq_refl))).
Defined.

(** ** The macros in front of the builtin block *)

Lemma expand_tokens_agree (N : list string) (s s' : pp_state) (ts : list token) :
  agree N s s' ->
  subset (expand_asked (pp_macros s') ts) N = true ->
  expand_tokens (pp_macros s) ts = expand_tokens (pp_macros s') ts.
Proof.
  intros [_ Ha] Hs. apply expand_tokens_frame. intros n Hn.
  apply Ha. by apply (subset_true _ _ Hs).
Qed.

Lemma eval_if_agree (N : list string) (s s' : pp_state) (e : list token) :
  agree N s s' ->
  subset (expand_asked (pp_macros s') e) N = true ->
  eval_if (pp_macros s) e = eval_if (pp_macros s') e.
Proof.
  intros [_ Ha] Hs. apply eval_if_frame. intros n Hn.
  apply Ha. by apply (subset_true _ _ Hs).
Qed.

Lemma front_slice_agree (c : Config) (o : Options) :
  agree front_names (preprocess c o) (front_slice c o).
Proof.
  split_runs. unfold front_slice. walk.
  all: by_options_compute o.
Qed.

(** X2: The integer limits agree with the sizes of the configuration: with a
    long of 4 or 8 bytes [__LONG_MAX__] is the largest value of a signed
    integer of that many bytes; [__INT_MAX__] and [__LONG_LONG_MAX__]
    are those of 4 and 8 bytes, as [__SIZEOF_INT__],
    [__SIZEOF_LONG_LONG__] and [__CHAR_BIT__] say. *)
Theorem integer_limits_match_sizes (c : Config) (o : Options) :
  LONG_SIZE c = 4 \/ LONG_SIZE c = 8 ->
  let M := predefined_macros c o in
  macro_value M "__LONG_MAX__" = Some (2 ^ (8 * LONG_SIZE c - 1) - 1) /\
  macro_value M "__CHAR_BIT__" = Some 8 /\
  macro_value M "__SIZEOF_INT__" = Some 4 /\
  macro_value M "__INT_MAX__" = Some (2 ^ (8 * 4 - 1) - 1) /\
  macro_value M "__SIZEOF_LONG_LONG__" = Some 8 /\
  macro_value M "__LONG_LONG_MAX__" = Some (2 ^ (8 * 8 - 1) - 1).
Proof.
  intros Hl. cbv zeta. unfold macro_value, predefined_macros.
  rewrite !(agree_lookup _ _ _ _ (front_slice_agree c o)) by reflexivity.
  unfold front_slice, integer_limits.
  destruct Hl as [Hl | Hl]; rewrite Hl.
  - change (4 =? 4) with true. cbv iota. by_options_compute o.
  - change (8 =? 4) with false. cbv iota. by_options_compute o.
Qed.

Lemma integer_limits_match_sizes_witness :
  (LONG_SIZE windows_x86_64 = 4 \/ LONG_SIZE windows_x86_64 = 8) /\
  macro_value (predefined_macros windows_x86_64 default_options) "__LONG_MAX__"
    = Some (2 ^ (8 * LONG_SIZE windows_x86_64 - 1) - 1).
Proof.
  split; [left; reflexivity|].
  exact (proj1 (integer_limits_match_sizes windows_x86_64 default_options
                  (or_introl eq_refl))).
Defined.

(** X3: Every configuration is little-endian to the program: a test of
    [__BYTE_ORDER__] against [__ORDER_LITTLE_ENDIAN__] holds, one against
    [__ORDER_BIG_ENDIAN__] does not. *)
Theorem byte_order_little_endian (c : Config) (o : Options) :
  let M := predefined_macros c o in
  eval_if M (tokens "__BYTE_ORDER__==__ORDER_LITTLE_ENDIAN__") = Some true /\
  eval_if M (tokens "__BYTE_ORDER__==__ORDER_BIG_ENDIAN__") = Some false.
Proof.
  cbv zeta. unfold predefined_macros. split.
  - rewrite (eval_if_agree _ _ _ _ (front_slice_agree c o));
      unfold front_slice; by_options_compute o.
  - rewrite (eval_if_agree _ _ _ _ (front_slice_agree c o));
      unfold front_slice; by_options_compute o.
Qed.

(** X4: The wide-character types: [unsigned short] for both on Windows/PE;
    elsewhere [__WCHAR_TYPE__] is [int], and [__WINT_TYPE__] is
    [unsigned int] on Linux and [int] on the other systems. *)
Theorem wide_char_types_by_target (c : Config) (o : Options) :
  let M := predefined_macros c o in
  M !! "__WCHAR_TYPE__" = Some (object_like (wchar_type c)) /\
  M !! "__WINT_TYPE__" = Some (object_like (wint_type c)).
Proof.
  cbv zeta. unfold predefined_macros.
  rewrite !(agree_lookup _ _ _ _ (front_slice_agree c o)) by reflexivity.
  unfold front_slice, wchar_type, wint_type. split; by_options_compute o.
Qed.

(** X9: The macros of glibc's headers (lines 146-150) exist exactly off
    Windows/PE, and [__INT32_TYPE__] is [int] everywhere, whatever the
    options, preprocessing-only included: these lines come in front of
    [#ifndef __TCC_PP__]. *)
Theorem redirect_macros (c : Config) (o : Options) :
  let M := predefined_macros c o in
  M !! "__REDIRECT" = redirect_macro c "name proto __asm__(#alias)" /\
  M !! "__REDIRECT_NTH" = redirect_macro c "name proto __asm__(#alias)__THROW" /\
  M !! "__INT32_TYPE__" = Some (object_like "int").
Proof.
  cbv zeta. unfold predefined_macros.
  rewrite !(agree_lookup _ _ _ _ (front_slice_agree c o)) by reflexivity.
  unfold front_slice, redirect_macro. by_options_compute o.
Qed.

Lemma type_words_agree (c : Config) (o : Options) :
  agree (type_names ++ type_words) (preprocess c o) (types_slice c o).
Proof.
  split_runs. unfold types_slice. walk.
  all: by_options_compute o.
Qed.

(** X8: On every system but NetBSD the pointer-sized integer types are the
    size types: [__UINTPTR_TYPE__] expands to the type [__SIZE_TYPE__]
    expands to, and [__INTPTR_TYPE__] to that of [__PTRDIFF_TYPE__]. *)
Theorem intptr_types_expand (c : Config) (o : Options) :
  TARGETOS_NetBSD c = false ->
  let M := predefined_macros c o in
  expand_tokens M [TId "__UINTPTR_TYPE__"] = Some (tokens (spec_size_type c)) /\
  expand_tokens M [TId "__SIZE_TYPE__"] = Some (tokens (spec_size_type c)) /\
  expand_tokens M [TId "__INTPTR_TYPE__"] = Some (tokens (spec_ptrdiff_type c)) /\
  expand_tokens M [TId "__PTRDIFF_TYPE__"] = Some (tokens (spec_ptrdiff_type c)).
Proof.
  intros Hn. cbv zeta. unfold predefined_macros.
  repeat split.
  all: rewrite (expand_tokens_agree _ _ _ _ (type_words_agree c o));
    unfold types_slice, derived_int_types, spec_size_type, size_model,
      spec_ptrdiff_type, spec_data_model;
    rewrite Hn; cbv [negb]; cbv iota; by_options_compute o.
Qed.

Lemma intptr_types_expand_witness :
  TARGETOS_NetBSD openbsd_i386 = false /\
  expand_tokens (predefined_macros openbsd_i386 default_options)
    [TId "__UINTPTR_TYPE__"] = Some (tokens "unsigned long").
Proof.
  split; [reflexivity|].
  exact (proj1 (intptr_types_expand openbsd_i386 default_options eq_refl)).
Defined.

Lemma c99_macros_witness :
  language_std default_options = STD_C99 /\
  Forall (fun n => predefined_macros linux_x86_64 default_options !! n = None)
    [ "__STDC_NO_ATOMICS__"; "__STDC_NO_COMPLEX__"; "__STDC_NO_THREADS__";
      "__STDC_UTF_16__"; "__STDC_UTF_32__" ].
Proof.
  split; [reflexivity|].
  exact (c99_macros linux_x86_64 default_options eq_refl).
Defined.

(** ** The builtin macros and the variadic-argument macros *)

Lemma defined_as_spec (M : gmap string macro) (table : list (string * bool))
    (n : string) (b : bool) :
  defined_as M table = true -> (n, b) ∈ table ->
  (is_Some (M !! n) <-> b = true).
Proof.
  unfold defined_as. rewrite forallb_forall. intros H Hin.
  apply list_elem_of_In, H, eqb_prop in Hin. simpl in Hin.
  unfold defined_in in Hin. rewrite <- Hin. symmetry. apply bool_decide_eq_true.
Qed.

Lemma block_slice_agree (c : Config) (o : Options) :
  agree block_names (preprocess c o) (block_slice c (preprocess_only o)).
Proof.
  pose proof (initial_plain block_names o eq_refl) as H.
  split_runs. unfold block_slice. walk_from H.
  all: clear H; by_mode_compute o.
Qed.

Lemma block_slice_table (c : Config) (pp : bool) :
  defined_as (pp_macros (block_slice c pp)) (in_mode pp (block_table c)) = true.
Proof. unfold block_slice, block_table, is_va, va_branch. by_cases_compute. Qed.

(** X10: Which builtin macros a configuration has: [__builtin_offsetof],
    [__builtin_extract_return_addr], [__builtin_va_end] and
    [__builtin_va_copy] always; the floating-point builtins of
    lines 157-171 on the systems that are neither Linux nor Windows/PE
    ([__builtin_flt_rounds] and [__builtin_bzero] on Mach-O only);
    [__builtin_va_start] on x86_64 (other than Windows), ARM and i386;
    [__builtin_va_arg] everywhere except on ARM64.  When the text is read
    for preprocessing only, none of them is defined. *)
Theorem builtin_macros_by_target (c : Config) (o : Options) :
  Forall (fun e => is_Some (predefined_macros c o !! e.1) <->
                   preprocess_only o = false /\ e.2 = true)
    (block_table c).
Proof.
  apply Forall_forall. intros [n b] Hin. simpl.
  assert (HN : mem n block_names = true).
  { apply mem_true. unfold block_names. apply elem_of_app. left.
    change block_macros with (map fst (block_table c)).
    by apply (list_elem_of_fmap_2 fst _ (n, b)). }
  unfold predefined_macros.
  rewrite (agree_lookup _ _ _ _ (block_slice_agree c o) HN).
  rewrite (defined_as_spec _ _ n (negb (preprocess_only o) && b)
             (block_slice_table c (preprocess_only o))).
  - rewrite andb_true_iff, negb_true_iff. done.
  - unfold in_mode. apply list_elem_of_fmap. by exists (n, b).
Qed.

Lemma va_copy_check_spec (M : gmap string macro) (m : macro) :
  va_copy_check M m = true ->
  M !! "__builtin_va_copy" = Some m /\
  M !! "__builtin_va_end" = Some (function_like ["ap"] "(void)(ap)").
Proof.
  unfold va_copy_check. rewrite andb_true_iff, !bool_decide_eq_true. done.
Qed.

Lemma block_slice_va_copy (c : Config) :
  va_copy_check (pp_macros (block_slice c false)) (va_copy_macro c) = true.
Proof. unfold block_slice, va_copy_macro. by_cases_compute. Qed.

(** X11: [__builtin_va_copy] keeps the definition of its branch: the guard of
    lines 230-232 defines it as a plain assignment only where lines 173-228
    have not defined it, so x86_64 (other than Windows) keeps the copy
    of the one-element array. *)
Theorem va_copy_guard (c : Config) (o : Options) :
  preprocess_only o = false ->
  predefined_macros c o !! "__builtin_va_copy" = Some (va_copy_macro c) /\
  predefined_macros c o !! "__builtin_va_end"
    = Some (function_like ["ap"] "(void)(ap)").
Proof.
  intros Hpp. unfold predefined_macros.
  pose proof (block_slice_agree c o) as Ha. rewrite Hpp in Ha.
  rewrite !(agree_lookup _ _ _ _ Ha) by reflexivity.
  apply va_copy_check_spec, block_slice_va_copy.
Qed.

Lemma va_copy_guard_witness :
  preprocess_only default_options = false /\
  predefined_macros linux_x86_64 default_options !! "__builtin_va_copy"
    = Some (function_like ["dest"; "src"] "(*(dest)=*(src))") /\
  predefined_macros windows_x86_64 default_options !! "__builtin_va_copy"
    = Some (function_like ["dest"; "src"] "(dest)=(src)").
Proof.
  split; [reflexivity|]. split.
  - exact (proj1 (va_copy_guard linux_x86_64 default_options eq_refl)).
  - exact (proj1 (va_copy_guard windows_x86_64 default_options eq_refl)).
Defined.

(** ** Arithmetic of the variadic-argument macros *)

Lemma land_mask (w k x : Z) :
  0 <= k -> 0 <= w -> 0 <= x < 2 ^ w ->
  Z.land x ((Z.lnot (2 ^ k - 1)) mod 2 ^ w) = 2 ^ k * (x / 2 ^ k).
Proof.
  intros Hk Hw Hx.
  rewrite <- (Z.land_ones _ w) by done.
  rewrite (Z.land_comm (Z.lnot _)), Z.land_assoc.
  rewrite (Z.land_ones x w) by done. rewrite (Z.mod_small x) by done.
  replace (2 ^ k - 1) with (Z.ones k) by (rewrite Z.ones_equiv; lia).
  rewrite <- Z.ldiff_land, Z.ldiff_ones_r by done.
  rewrite Z.shiftl_mul_pow2, Z.shiftr_div_pow2 by done. lia.
Qed.

(** Masking with [~(2^k-1)], or with [-2^k], rounds down to a multiple
    of [2^k]; on [x+2^k-1] it rounds [x] up. *)
Lemma land_round_up (w k x y m : Z) :
  0 <= k -> 0 <= w -> 0 <= x ->
  y = x + 2 ^ k - 1 -> y < 2 ^ w -> m = Z.lnot (2 ^ k - 1) ->
  Z.land y (m mod 2 ^ w) = round_up x (2 ^ k).
Proof.
  intros Hk Hw H0 -> H1 ->. pose proof (Z.pow_pos_nonneg 2 k ltac:(lia) Hk).
  rewrite land_mask by lia. reflexivity.
Qed.

Lemma round_up_bounds (x a : Z) :
  0 < a -> x <= round_up x a < x + a /\ round_up x a mod a = 0.
Proof.
  intros Ha. unfold round_up. split.
  - pose proof (Z.div_mod (x + a - 1) a ltac:(lia)).
    pose proof (Z.mod_pos_bound (x + a - 1) a Ha). lia.
  - rewrite Z.mul_comm. apply Z.mod_mul. lia.
Qed.

Lemma round_up_fixed (x a : Z) : 0 < a -> x mod a = 0 -> round_up x a = x.
Proof.
  intros Ha Hx. unfold round_up.
  pose proof (Z.div_mod x a ltac:(lia)) as Hd. rewrite Hx in Hd.
  replace (x + a - 1) with (x / a * a + (a - 1)) by lia.
  rewrite Z.div_add_l by lia. rewrite (Z.div_small (a - 1)) by lia. lia.
Qed.

Lemma round_up_add (x y a : Z) :
  0 < a -> x mod a = 0 -> round_up (x + y) a = x + round_up y a.
Proof.
  intros Ha Hx. unfold round_up.
  pose proof (Z.div_mod x a ltac:(lia)) as Hd. rewrite Hx in Hd.
  replace (x + y + a - 1) with (x / a * a + (y + a - 1)) by lia.
  rewrite Z.div_add_l by lia. lia.
Qed.

Lemma mod_of_multiple (x a b : Z) :
  0 < a -> 0 < b -> (a | b) -> x mod b = 0 -> x mod a = 0.
Proof.
  intros Ha Hb Hab Hx. apply Z.mod_divide; [lia|].
  apply Z.mod_divide in Hx; [|lia]. by apply (Z.divide_trans _ b).
Qed.

Lemma slot4_spec (size : Z) :
  0 <= size -> size + 3 < 2 ^ 32 -> slot4 size = round_up size 4.
Proof.
  intros H0 H1. unfold slot4, wrap32.
  rewrite (Z.mod_small (size + 3)) by lia.
  apply (land_round_up 32 2 size); (lia || reflexivity).
Qed.

(** The aligned [ap]: [ap] itself for an alignment that divides the
    slot size, a multiple of the slot size otherwise. *)
Lemma round_up_slot (ap a s : Z) :
  0 < s -> 0 < a -> ap mod s = 0 -> (a | s) \/ (s | a) ->
  round_up ap a mod s = 0.
Proof.
  intros Hs Ha Hap [Hd | Hd].
  - rewrite round_up_fixed; [done | done |]. by apply (mod_of_multiple _ _ s).
  - apply (mod_of_multiple _ _ a); [done..|]. by apply round_up_bounds.
Qed.

Ltac branch_flags H :=
  unfold va_branch in H;
  repeat match type of H with
         | context [if ?b then _ else _] => destruct b eqn:?; simpl in H
         end;
  try discriminate H; clear H.

Lemma i386_macros (c : Config) :
  va_branch c = VA_I386 ->
  let M := pp_macros (block_slice c false) in
  M !! "__builtin_va_start" = Some (function_like ["ap"; "last"] va_start32_body) /\
  M !! "__builtin_va_arg" = Some (function_like ["ap"; "t"] i386_va_arg_body).
Proof.
  intros H. cbv zeta. unfold block_slice, va_list_abi. branch_flags H.
  repeat match goal with E : _ = false |- _ => rewrite E; clear E end.
  by_cases_compute.
Qed.

(** X13: The i386 convention (lines 223-226): [__builtin_va_start] sets [ap]
    behind the last named parameter, its size rounded up to a multiple
    of 4; [__builtin_va_arg] reads the argument at [ap] and moves [ap]
    forward by the size of the type rounded up to a multiple of 4. *)
Theorem i386_va_arg_abi (c : Config) (o : Options) (ap size : Z) :
  va_branch c = VA_I386 -> preprocess_only o = false ->
  0 <= ap -> 0 <= size -> ap + size + 3 < 2 ^ 32 ->
  let M := predefined_macros c o in
  M !! "__builtin_va_start" = Some (function_like ["ap"; "last"] va_start32_body) /\
  M !! "__builtin_va_arg" = Some (function_like ["ap"; "t"] i386_va_arg_body) /\
  va_start32 ap size = ap + round_up size 4 /\
  i386_va_arg ap size = (ap + round_up size 4, ap) /\
  size <= round_up size 4 < size + 4.
Proof.
  intros Hb Hpp H0 Hs Hlim. cbv zeta.
  pose proof (block_slice_agree c o) as Ha. rewrite Hpp in Ha.
  unfold predefined_macros.
  rewrite !(agree_lookup _ _ _ _ Ha) by reflexivity.
  destruct (i386_macros c Hb) as [H1 H2].
  pose proof (round_up_bounds size 4 ltac:(lia)) as [Hr _].
  split; [exact H1|]. split; [exact H2|].
  unfold va_start32, i386_va_arg. rewrite slot4_spec by lia.
  unfold wrap32. rewrite (Z.mod_small (ap + _)) by lia.
  replace (ap + round_up size 4 - round_up size 4) with ap by lia.
  rewrite (Z.mod_small ap) by lia. done.
Qed.

Lemma i386_va_arg_abi_witness :
  va_branch openbsd_i386 = VA_I386 /\
  preprocess_only default_options = false /\
  0 <= 4096 /\ 0 <= 5 /\ 4096 + 5 + 3 < 2 ^ 32 /\
  i386_va_arg 4096 5 = (4096 + round_up 5 4, 4096).
Proof.
  split; [reflexivity|]. split; [reflexivity|].
  split; [lia|]. split; [lia|]. split; [lia|].
  exact (proj1 (proj2 (proj2 (proj2
    (i386_va_arg_abi openbsd_i386 default_options 4096 5
       eq_refl eq_refl ltac:(lia) ltac:(lia) ltac:(lia)))))).
Defined.

Lemma arm_macros (c : Config) :
  va_branch c = VA_ARM ->
  let M := pp_macros (block_slice c false) in
  M !! "_tcc_alignof" = Some (function_like ["type"] arm_alignof_body) /\
  M !! "_tcc_align" = Some (function_like ["addr"; "type"] arm_align_body) /\
  M !! "__builtin_va_start" = Some (function_like ["ap"; "last"] va_start32_body) /\
  M !! "__builtin_va_arg" = Some (function_like ["ap"; "type"] arm_va_arg_body).
Proof.
  intros H. cbv zeta. unfold block_slice, va_list_abi. branch_flags H.
  repeat match goal with E : _ = _ |- _ => rewrite E; clear E end.
  by_cases_compute.
Qed.

Lemma arm_align_spec (addr k : Z) :
  0 <= k -> 0 <= addr -> addr + 2 ^ k < 2 ^ 32 ->
  arm_align addr (2 ^ k) = round_up addr (2 ^ k).
Proof.
  intros Hk H0 H1. pose proof (Z.pow_pos_nonneg 2 k ltac:(lia) Hk).
  unfold arm_align, wrap32.
  rewrite (Z.mod_small (addr + _)) by lia.
  rewrite (Z.mod_small (addr + _ - 1)) by lia.
  apply (land_round_up 32 k addr); (lia || reflexivity).
Qed.

(** X14: The ARM convention (lines 197-202): with [ap] a multiple of 4 and a
    type whose alignment is 1, 2, 4 or 8, [__builtin_va_arg] reads the
    argument at [ap] rounded up to that alignment ([_tcc_align]) and moves
    [ap] behind it, the size rounded up to a multiple of 4; the new [ap]
    is again a multiple of 4. *)
Theorem arm_va_arg_abi (c : Config) (o : Options) (ap k size : Z) :
  va_branch c = VA_ARM -> preprocess_only o = false ->
  0 <= ap -> ap mod 4 = 0 -> 0 <= k <= 3 -> 0 <= size ->
  ap + 2 ^ k + size + 3 < 2 ^ 32 ->
  let M := predefined_macros c o in
  let a := 2 ^ k in
  M !! "_tcc_align" = Some (function_like ["addr"; "type"] arm_align_body) /\
  M !! "__builtin_va_arg" = Some (function_like ["ap"; "type"] arm_va_arg_body) /\
  arm_va_arg ap a size = (round_up ap a + round_up size 4, round_up ap a) /\
  ap <= round_up ap a < ap + a /\
  round_up ap a mod a = 0 /\
  (round_up ap a + round_up size 4) mod 4 = 0.
Proof.
  intros Hb Hpp H0 Hal Hk Hs Hlim. cbv zeta.
  pose proof (block_slice_agree c o) as Ha. rewrite Hpp in Ha.
  unfold predefined_macros.
  rewrite !(agree_lookup _ _ _ _ Ha) by reflexivity.
  destruct (arm_macros c Hb) as (_ & H1 & _ & H2).
  split; [exact H1|]. split; [exact H2|]. clear Ha H1 H2 Hb Hpp.
  assert (Hpos : 0 < 2 ^ k) by (apply Z.pow_pos_nonneg; lia).
  pose proof (round_up_bounds ap (2 ^ k) Hpos) as [Hr1 Hr2].
  pose proof (round_up_bounds size 4 ltac:(lia)) as [Hr3 Hr4].
  assert (Hdiv : (2 ^ k | 4) \/ (4 | 2 ^ k)).
  { assert (Hc : k = 0 \/ k = 1 \/ k = 2 \/ k = 3) by lia.
    destruct Hc as [-> | [-> | [-> | ->]]];
      [left; by exists 4 | left; by exists 2 | left; by exists 1
      | right; by exists 2]. }
  pose proof (round_up_slot ap (2 ^ k) 4 ltac:(lia) Hpos Hal Hdiv) as Hm.
  assert (Hsum : (round_up ap (2 ^ k) + round_up size 4) mod 4 = 0).
  { rewrite Z.add_mod, Hm, Hr4 by lia. reflexivity. }
  split; [|done].
  unfold arm_va_arg. rewrite arm_align_spec, slot4_spec by lia.
  unfold wrap32.
  rewrite (Z.mod_small (round_up ap (2 ^ k) + size)) by lia.
  rewrite (Z.mod_small (round_up ap (2 ^ k) + size + 3)) by lia.
  assert (Hl : Z.land (round_up ap (2 ^ k) + size + 3) (Z.lnot 3 mod 2 ^ 32)
               = round_up (round_up ap (2 ^ k) + size) 4)
    by (apply (land_round_up 32 2 (round_up ap (2 ^ k) + size));
        (lia || reflexivity)).
  rewrite Hl.
  rewrite round_up_add by (lia || done).
  f_equal.
  replace (round_up ap (2 ^ k) + round_up size 4 - round_up size 4)
    with (round_up ap (2 ^ k)) by lia.
  apply Z.mod_small. lia.
Qed.

Lemma arm_va_arg_abi_witness :
  va_branch linux_arm = VA_ARM /\
  preprocess_only default_options = false /\
  0 <= 4100 /\ 4100 mod 4 = 0 /\ 0 <= 3 <= 3 /\ 0 <= 8 /\
  4100 + 2 ^ 3 + 8 + 3 < 2 ^ 32 /\
  arm_va_arg 4100 (2 ^ 3) 8 = (round_up 4100 (2 ^ 3) + round_up 8 4,
                               round_up 4100 (2 ^ 3)).
Proof.
  split; [reflexivity|]. split; [reflexivity|].
  split; [lia|]. split; [reflexivity|]. split; [lia|]. split; [lia|].
  split; [reflexivity|].
  exact (proj1 (proj2 (proj2
    (arm_va_arg_abi linux_arm default_options 4100 3 8
       eq_refl eq_refl ltac:(lia) eq_refl ltac:(lia) ltac:(lia) eq_refl)))).
Defined.

Lemma riscv_macros (c : Config) :
  va_branch c = VA_RISCV64 ->
  let M := pp_macros (block_slice c false) in
  M !! "__va_reg_size" = Some (object_like riscv_reg_size_body) /\
  M !! "_tcc_align" = Some (function_like ["addr"; "type"] riscv_align_body) /\
  M !! "__builtin_va_arg" = Some (function_like ["ap"; "type"] riscv_va_arg_body).
Proof.
  intros H. cbv zeta. unfold block_slice, va_list_abi. branch_flags H.
  repeat match goal with E : _ = _ |- _ => rewrite E; clear E end.
  by_cases_compute.
Qed.

Lemma neg_pow2_mask (k : Z) : - 2 ^ k = Z.lnot (2 ^ k - 1).
Proof. unfold Z.lnot. lia. Qed.

Lemma riscv_align_spec (addr k : Z) :
  0 <= k -> 0 <= addr -> addr + 2 ^ k < 2 ^ 64 ->
  riscv_align addr (2 ^ k) = round_up addr (2 ^ k).
Proof.
  intros Hk H0 H1. pose proof (Z.pow_pos_nonneg 2 k ltac:(lia) Hk).
  unfold riscv_align, wrap64.
  rewrite (Z.mod_small (addr + _)) by lia.
  rewrite (Z.mod_small (addr + _ - 1)) by lia.
  apply (land_round_up 64 k addr); try lia. apply neg_pow2_mask.
Qed.

Lemma riscv_slot_spec (size : Z) :
  0 <= size -> size + 8 < 2 ^ 64 -> riscv_slot 8 size = round_up size 8.
Proof.
  intros H0 H1. unfold riscv_slot, wrap64.
  rewrite (Z.mod_small (size + 8)) by lia.
  rewrite (Z.mod_small (size + 8 - 1)) by lia.
  apply (land_round_up 64 3 size); try lia. apply (neg_pow2_mask 3).
Qed.

(** X15: The RISC-V convention (lines 217-221), with 64-bit registers
    ([__riscv_xlen] is 64) and [ap] a multiple of 8: an argument larger
    than two registers is read through the pointer stored at [ap], and
    [ap] moves forward by one register; any other argument, of a type
    whose alignment is 1, 2, 4, 8 or 16, is read at [ap] rounded up to
    that alignment, and [ap] moves behind it, the size rounded up to a
    multiple of 8.  The new [ap] is again a multiple of 8. *)
Theorem riscv_va_arg_abi (c : Config) (o : Options) (ap k size : Z) :
  va_branch c = VA_RISCV64 -> preprocess_only o = false ->
  0 <= ap -> ap mod 8 = 0 -> 0 <= k <= 4 -> 0 <= size ->
  ap + 2 ^ k + size + 8 < 2 ^ 64 ->
  let M := predefined_macros c o in
  let a := 2 ^ k in
  let reg := Z.shiftr 64 3 in
  M !! "__va_reg_size" = Some (object_like riscv_reg_size_body) /\
  M !! "_tcc_align" = Some (function_like ["addr"; "type"] riscv_align_body) /\
  M !! "__builtin_va_arg" = Some (function_like ["ap"; "type"] riscv_va_arg_body) /\
  (2 * reg < size ->
   riscv_va_arg reg ap a size = (ap + reg, ReadThrough ap)) /\
  (size <= 2 * reg ->
   riscv_va_arg reg ap a size
   = (round_up ap a + round_up size reg, ReadAt (round_up ap a))) /\
  ap <= round_up ap a < ap + a /\
  round_up ap a mod a = 0 /\
  (round_up ap a + round_up size reg) mod 8 = 0.
Proof.
  intros Hb Hpp H0 Hal Hk Hs Hlim. cbv zeta.
  change (Z.shiftr 64 3) with 8.
  pose proof (block_slice_agree c o) as Ha. rewrite Hpp in Ha.
  unfold predefined_macros.
  rewrite !(agree_lookup _ _ _ _ Ha) by reflexivity.
  destruct (riscv_macros c Hb) as (H1 & H2 & H3).
  split; [exact H1|]. split; [exact H2|]. split; [exact H3|].
  clear Ha H1 H2 H3 Hb Hpp.
  assert (Hpos : 0 < 2 ^ k) by (apply Z.pow_pos_nonneg; lia).
  pose proof (round_up_bounds ap (2 ^ k) Hpos) as [Hr1 Hr2].
  pose proof (round_up_bounds size 8 ltac:(lia)) as [Hr3 Hr4].
  assert (Hdiv : (2 ^ k | 8) \/ (8 | 2 ^ k)).
  { assert (Hc : k = 0 \/ k = 1 \/ k = 2 \/ k = 3 \/ k = 4) by lia.
    destruct Hc as [-> | [-> | [-> | [-> | ->]]]];
      [left; by exists 8 | left; by exists 4 | left; by exists 2
      | left; by exists 1 | right; by exists 2]. }
  pose proof (round_up_slot ap (2 ^ k) 8 ltac:(lia) Hpos Hal Hdiv) as Hm.
  assert (Hsum : (round_up ap (2 ^ k) + round_up size 8) mod 8 = 0).
  { rewrite Z.add_mod, Hm, Hr4 by lia. reflexivity. }
  split; [|split; [|done]].
  - intros Hbig. unfold riscv_va_arg.
    assert ((size >? 2 * 8) = true) as -> by lia.
    unfold wrap64. rewrite (Z.mod_small (ap + 8)) by lia.
    replace (ap + 8 - 8) with ap by lia. by rewrite Z.mod_small by lia.
  - intros Hsmall. unfold riscv_va_arg.
    assert ((size >? 2 * 8) = false) as -> by lia.
    rewrite riscv_align_spec, riscv_slot_spec by lia.
    unfold wrap64.
    rewrite (Z.mod_small (size + 8)) by lia.
    rewrite (Z.mod_small (size + 8 - 1)) by lia.
    rewrite (Z.mod_small (round_up ap (2 ^ k) + _)) by lia.
    assert (Hl : Z.land (round_up ap (2 ^ k) + (size + 8 - 1)) (- (8) mod 2 ^ 64)
                 = round_up (round_up ap (2 ^ k) + size) 8).
    { apply (land_round_up 64 3 (round_up ap (2 ^ k) + size)); try lia.
      apply (neg_pow2_mask 3). }
    rewrite Hl, round_up_add by (lia || done).
    do 2 f_equal.
    replace (round_up ap (2 ^ k) + round_up size 8 - round_up size 8)
      with (round_up ap (2 ^ k)) by lia.
    apply Z.mod_small. lia.
Qed.

Lemma riscv_va_arg_abi_witness :
  va_branch linux_riscv64 = VA_RISCV64 /\
  preprocess_only default_options = false /\
  0 <= 4104 /\ 4104 mod 8 = 0 /\ 0 <= 4 <= 4 /\ 0 <= 16 /\
  4104 + 2 ^ 4 + 16 + 8 < 2 ^ 64 /\
  16 <= 2 * Z.shiftr 64 3 /\
  riscv_va_arg (Z.shiftr 64 3) 4104 (2 ^ 4) 16
  = (round_up 4104 (2 ^ 4) + round_up 16 (Z.shiftr 64 3),
     ReadAt (round_up 4104 (2 ^ 4))).
Proof.
  split; [reflexivity|]. split; [reflexivity|].
  split; [lia|]. split; [reflexivity|]. split; [lia|]. split; [lia|].
  split; [reflexivity|].
  assert (H : 16 <= 2 * Z.shiftr 64 3) by (vm_compute; discriminate).
  split; [exact H|].
  exact (proj1 (proj2 (proj2 (proj2 (proj2
    (riscv_va_arg_abi linux_riscv64 default_options 4104 4 16
       eq_refl eq_refl ltac:(lia) eq_refl ltac:(lia) ltac:(lia) eq_refl)))))
    H).
Defined.

(** ** The declarations of the builtin table *)

Lemma bindings_from_app (st : decl_state) (ts1 ts2 : list token) :
  bindings_from st (ts1 ++ ts2) =
  let '(b1, st1) := bindings_from st ts1 in
  let '(b2, st2) := bindings_from st1 ts2 in
  (b1 ++ b2, st2).
Proof.
  revert st. induction ts1 as [|t ts1 IH]; intros st; simpl.
  - by destruct (bindings_from st ts2).
  - destruct (decl_step st t) as [st' b]. rewrite IH.
    destruct (bindings_from st' ts1) as [b1 st1].
    destruct (bindings_from st1 ts2) as [b2 st2].
    by rewrite app_assoc.
Qed.

(** A run of whole declarations in front of another. *)
Lemma bindings_from_whole (ts1 ts2 : list token) b1 b2 :
  bindings_from decl_start ts1 = (b1, decl_start) ->
  bindings_from decl_start ts2 = (b2, decl_start) ->
  bindings_from decl_start (ts1 ++ ts2) = (b1 ++ b2, decl_start).
Proof. intros H1 H2. by rewrite bindings_from_app, H1, H2. Qed.

Ltac split_config :=
  repeat match goal with
         | c : Config |- _ =>
             destruct c;
             cbn [PTR_SIZE LONG_SIZE TARGETOS_OpenBSD TARGETOS_Linux
                  TARGETOS_FreeBSD TARGETOS_FreeBSD_kernel TARGETOS_NetBSD
                  TARGETOS_ANDROID TCC_TARGET_PE TCC_TARGET_MACHO
                  TCC_TARGET_I386 TCC_TARGET_X86_64 TCC_TARGET_ARM
                  TCC_TARGET_ARM64 TCC_TARGET_RISCV64 TCC_ARM_EABI]
         end;
  repeat match goal with
         | x : bool |- _ => clear x
         end.

(** The same evaluation where the configuration is read outside the
    conditions of the text as well. *)
Ltac by_table_compute o :=
  unfold table_bindings, strings_table, alloc_table, misc_table;
  unfold_slices; case_size; unfold size_define; unfold_sections;
  destruct o as [? ? ? ?];
  cbn [preprocess_only bounds_checking leading_underscore];
  abstract_flags; split_config; decide_flags.

Lemma va_bindings (c : Config) (o : Options) :
  bindings_from decl_start (va_out c o) = ([], decl_start).
Proof. by_table_compute o. Qed.

Lemma strings_bindings (c : Config) (o : Options) :
  bindings_from decl_start (strings_out c o)
  = (table_bindings c o (strings_table c), decl_start).
Proof. by_table_compute o. Qed.

Lemma alloc_bindings (c : Config) (o : Options) :
  bindings_from decl_start (alloc_out c o)
  = (table_bindings c o alloc_table, decl_start).
Proof. by_table_compute o. Qed.

Lemma misc_bindings (c : Config) (o : Options) :
  bindings_from decl_start (misc_out c o)
  = (table_bindings c o (misc_table c), decl_start).
Proof. by_table_compute o. Qed.

Lemma table_bindings_app (c : Config) (o : Options) t1 t2 :
  table_bindings c o (t1 ++ t2) = table_bindings c o t1 ++ table_bindings c o t2.
Proof.
  unfold table_bindings. destruct (preprocess_only o); [done|].
  apply flat_map_app.
Qed.

(** The bindings of the declarations, group by group. *)
Lemma decls_bindings (c : Config) (o : Options) :
  bindings (predefined_decls c o) =
  table_bindings c o (strings_table c) ++ table_bindings c o alloc_table
  ++ table_bindings c o (misc_table c).
Proof.
  destruct (decls_split c o) as (Hd & _). unfold bindings. rewrite Hd.
  rewrite (bindings_from_whole _ _ [] _ (va_bindings c o)
             (bindings_from_whole _ _ _ _ (strings_bindings c o)
                (bindings_from_whole _ _ _ _ (alloc_bindings c o)
                   (misc_bindings c o)))).
  reflexivity.
Qed.

(** X16: The builtin table, line by line: the declarations of a translation
    unit bind exactly the functions that the helper macros make of the
    entries of lines 256-298, in order.  [__BOUND] declares the function
    under its own name with the symbol [__bound_f], with bounds checking
    only; [__BUILTIN] declares [__builtin_f] with the symbol [f], except
    on Windows/PE; [__BOTH] declares [__builtin_f] and, with bounds
    checking, [f], both with [__bound_f] then, and is [__BOUND] on
    Windows/PE; [__MAYBE_REDIR] is [__BUILTIN] on Linux and Mach-O and
    [__BOTH] elsewhere.  Symbols get a leading underscore when the
    option is set; nothing is declared when the text is read for
    preprocessing only. *)
Theorem builtin_table_bindings (c : Config) (o : Options) :
  bindings (predefined_decls c o) = table_bindings c o (table_entries c).
Proof.
  rewrite decls_bindings. unfold table_entries.
  by rewrite !table_bindings_app.
Qed.

Lemma table_functions (c : Config) :
  forallb (fun e => mem e.2 builtin_functions) (table_entries c) = true.
Proof.
  unfold table_entries, strings_table, alloc_table, misc_table.
  by_cases_compute.
Qed.

Lemma entry_bindings_cases (pe redir bc lu : bool) (e : entry_kind * string)
    (n s : string) :
  (n, s) ∈ entry_bindings pe redir bc lu e ->
  (n = builtin_alias e.2 /\ pe = false /\
   (s = rename lu e.2 \/ bc = true /\ s = rename lu (bound_symbol e.2))) \/
  (n = e.2 /\ bc = true /\ s = rename lu (bound_symbol e.2)).
Proof.
  unfold entry_bindings. destruct e as [k f]; simpl.
  destruct k, pe, redir, bc; simpl;
    rewrite ?elem_of_cons, ?elem_of_nil; intros H;
    repeat match goal with
           | H : _ \/ _ |- _ => destruct H as [H | H]
           | H : False |- _ => destruct H
           | H : (_, _) = (_, _) |- _ => injection H as -> ->
           end; tauto.
Qed.

(** X17: What a declaration of the header can be: the alias [__builtin_f]
    of a function [f] of the table, bound to [f] or, with bounds
    checking, to [__bound_f], and never on Windows/PE; or, with bounds
    checking only, [f] itself bound to [__bound_f].  So without bounds
    checking no function is declared under its own name and no
    [__bound_] symbol is referred to. *)
Theorem declared_bindings (c : Config) (o : Options) (n s : string) :
  (n, s) ∈ bindings (predefined_decls c o) ->
  exists f, mem f builtin_functions = true /\
    ((n = builtin_alias f /\ TCC_TARGET_PE c = false /\
      (s = asm_symbol o f \/
       bounds_checking o = true /\ s = asm_symbol o (bound_symbol f))) \/
     (n = f /\ bounds_checking o = true /\ s = asm_symbol o (bound_symbol f))).
Proof.
  rewrite decls_bindings, <- !table_bindings_app. unfold table_bindings.
  destruct (preprocess_only o); [by rewrite elem_of_nil|].
  intros H. apply list_elem_of_In, in_flat_map in H as (e & He & H).
  exists e.2. split.
  - pose proof (table_functions c) as Ht. rewrite forallb_forall in Ht.
    apply Ht. exact He.
  - apply list_elem_of_In in H. apply entry_bindings_cases in H.
    unfold asm_symbol. exact H.
Qed.

Lemma declared_bindings_witness :
  ("malloc", "__bound_malloc")
    ∈ bindings (predefined_decls freebsd_x86_64 bounds_options) /\
  exists f, mem f builtin_functions = true /\
    (("malloc" = builtin_alias f /\ TCC_TARGET_PE freebsd_x86_64 = false /\
      ("__bound_malloc" = asm_symbol bounds_options f \/
       bounds_checking bounds_options = true /\
       "__bound_malloc" = asm_symbol bounds_options (bound_symbol f))) \/
     ("malloc" = f /\ bounds_checking bounds_options = true /\
      "__bound_malloc" = asm_symbol bounds_options (bound_symbol f))).
Proof.
  assert (H : ("malloc", "__bound_malloc")
                ∈ bindings (predefined_decls freebsd_x86_64 bounds_options))
    by compute_decide.
  split; [exact H|].
  exact (declared_bindings freebsd_x86_64 bounds_options _ _ H).
Defined.

Lemma entry_bindings_rename (pe redir bc lu : bool) (e : entry_kind * string) :
  entry_bindings pe redir bc lu e =
  map (fun b => (b.1, rename lu b.2)) (entry_bindings pe redir bc false e).
Proof.
  unfold entry_bindings. destruct e as [k f]; simpl.
  by destruct k, pe, redir, bc.
Qed.

(** X18: The leading-underscore option changes the symbols only: the same
    functions are declared in the same order, and each symbol is the one
    declared without the option with one underscore in front. *)
Theorem leading_underscore_prefixes (c : Config) (o : Options) :
  bindings (predefined_decls c o) =
  map (fun b => (b.1, asm_symbol o b.2))
    (bindings (predefined_decls c
       {| language_std := language_std o;
          preprocess_only := preprocess_only o;
          bounds_checking := bounds_checking o;
          leading_underscore := false |})).
Proof.
  rewrite !decls_bindings, <- !table_bindings_app.
  generalize (strings_table c ++ alloc_table ++ misc_table c). intros t.
  unfold table_bindings, asm_symbol.
  cbn [preprocess_only bounds_checking leading_underscore].
  destruct (preprocess_only o); [done|].
  induction t as [|e t IH]; [done|].
  simpl. rewrite map_app, <- IH. f_equal.
  apply entry_bindings_rename.
Qed.

(** ** The text as a whole *)

(** X19: Read for preprocessing only, the text passes no declaration on: the
    [#ifndef __TCC_PP__] of line 153 encloses every declaration. *)
Theorem preprocess_only_declares_nothing (c : Config) (o : Options) :
  preprocess_only o = true -> predefined_decls c o = [].
Proof.
  intros Hpp. destruct (decls_split c o) as (Hd & _). rewrite Hd.
  destruct o as [std pp bc lu]; simpl in Hpp; subst pp.
  assert (H1 : va_out c (mkOptions std true bc lu) = []) by by_cases_compute.
  assert (H2 : strings_out c (mkOptions std true bc lu) = []) by by_cases_compute.
  assert (H3 : alloc_out c (mkOptions std true bc lu) = []) by by_cases_compute.
  assert (H4 : misc_out c (mkOptions std true bc lu) = []) by by_cases_compute.
  by rewrite H1, H2, H3, H4.
Qed.

Lemma preprocess_only_declares_nothing_witness :
  preprocess_only (plain_options true) = true /\
  predefined_decls linux_x86_64 (plain_options true) = [].
Proof.
  split; [reflexivity|].
  exact (preprocess_only_declares_nothing linux_x86_64 (plain_options true) eq_refl).
Defined.

Lemma count_declares_app (n : string) (ls1 ls2 : list string) :
  count_declares n (ls1 ++ ls2)
  = (count_declares n ls1 + count_declares n ls2)%nat.
Proof.
  unfold count_declares. by rewrite flat_map_app, List.filter_app, length_app.
Qed.

(** X12: Every configuration has one [__builtin_va_list]: whatever the
    target flags, exactly one line of the text declares the type. *)
Theorem one_va_list_typedef (c : Config) :
  count_declares "__builtin_va_list" (tccdefs c) = 1%nat.
Proof.
  unfold tccdefs, predefs_head, builtin_block, builtin_table.
  rewrite ?count_declares_app.
  repeat match goal with
         | |- context [count_declares ?n ?sec] =>
             let H := fresh in
             assert (H : count_declares n sec = 0%nat) by by_cases_compute;
             rewrite H; clear H
         end.
  by_cases_compute.
Qed.

(** X1: The text is well formed in every configuration and under every
    setting of the options: its conditionals are closed where they are
    opened, no line is in error, and no conditional is left open at the
    end. *)
Theorem text_well_formed (c : Config) (o : Options) :
  balanced (tccdefs c) = true /\
  pp_err (preprocess c o) = false /\
  pp_conds (preprocess c o) = [].
Proof.
  split; [|by destruct (decls_split c o) as (_ & He & Hc)].
  unfold tccdefs, predefs_head, builtin_block, builtin_table.
  rewrite <- ?app_assoc.
  assert (Hpp : balanced (open_not_pp ++ builtin_macros c ++ va_list_abi c
                  ++ va_common ++ alias_helpers ++ alias_both c
                  ++ string_builtins c ++ maybe_redir c ++ alloc_builtins
                  ++ misc_builtins c ++ undef_helpers ++ close_not_pp) = true).
  { unfold balanced. apply bool_decide_eq_true.
    rewrite cond_shape_app.
    assert (H0 : cond_shape open_not_pp [] = Some [false]) by by_cases_compute.
    rewrite H0. simpl.
    repeat (rewrite cond_shape_app;
            match goal with
            | |- context [cond_shape ?sec [false]] =>
                let H := fresh in
                assert (H : cond_shape sec [false] = Some [false])
                  by by_cases_compute;
                rewrite H; clear H; simpl
            end).
    by_cases_compute. }
  repeat (apply balanced_app; [by_cases_compute|]).
  exact Hpp.
Qed.

(** X20: The names the text leaves to its environment are defined by no line
    of it, in any configuration: among them [__THROW] (line 149),
    [__riscv_xlen] (line 219) and [va_list] (line 221). *)
Theorem environment_names_undefined (c : Config) :
  disjoint environment_names (text_defines (tccdefs c)) = true.
Proof.
  unfold disjoint. apply forallb_forall. intros x Hx.
  apply negb_true_iff. apply not_true_is_false. intros Hm.
  pose proof (subset_covers _ _ (header_names_complete c) x Hm) as Hh.
  revert Hx Hh. clear.
  unfold environment_names. simpl.
  intros [<- | [<- | [<- | [<- | [<- | [<- | [<- | [<- | []]]]]]]]]; vm_compute; discriminate.
Qed.
